(** * The data hook [useSupabaseData] and the authentication context [useAuth]

    A shallow embedding of the two TypeScript modules of the repository:

    - [useSupabaseData] (six collections, a loading flag, [fetchData] and
      five mutators), embedded in a state-and-exception monad over a world
      made of the hook's React state, the state of the remote platform, the
      clock and the trace of observable effects;
    - [AuthProvider] / [useAuth], embedded as a transition system over the
      life cycle of the provider.

    Rows coming from the remote platform are JSON objects: TypeScript's
    interfaces are erased at run time, so a row is a finite map from
    property names to JSON scalars.

    An [async] function is run to completion here: the interleaving of two
    overlapping calls is outside the model, every statement below is about
    one call. *)

From stdpp Require Import gmap strings list fin_maps pretty.
From Stdlib Require Import ZArith.

Open Scope string_scope.
Open Scope list_scope.

(** ** JSON values and rows *)

Inductive Val : Type :=
| VNull
| VBool (b : bool)
| VNum (n : Z)
| VStr (s : string).

#[global] Instance Val_eq_dec : EqDecision Val.
Proof. solve_decision. Defined.

(** A row (a JS object with scalar properties). *)
Abbreviation Obj := (gmap string Val).

(** [row.prop] where an absent property reads as [undefined]. *)
Definition prop (o : Obj) (k : string) : option Val := o !! k.

(** [xs.includes(x)] on an array of string literals: [x] is [undefined]
    ([None]) or any JSON scalar; only a string can be equal to a literal. *)
Definition includes (xs : list string) (x : option Val) : bool :=
  match x with
  | Some (VStr s) => bool_decide (s ∈ xs)
  | _ => false
  end.

(** ** The remote client *)

Record Error : Type := MkError { message : string }.

#[global] Instance Error_eq_dec : EqDecision Error.
Proof. solve_decision. Defined.

(** What [await supabase.from(..)...] destructures: [{ data, error }]. *)
Record Reply (A : Type) : Type := MkReply { data : option A; error : option Error }.
Arguments MkReply {A} _ _.
Arguments data {A} _.
Arguments error {A} _.

#[global] Instance Reply_eq_dec {A} `{EqDecision A} : EqDecision (Reply A).
Proof. solve_decision. Defined.

(** The outcome of an awaited promise or of a call: a value, or a thrown
    error. *)
Inductive Result (A : Type) : Type :=
| Normal (a : A)
| Thrown (e : Error).
Arguments Normal {A} _.
Arguments Thrown {A} _.

#[global] Instance Result_eq_dec {A} `{EqDecision A} : EqDecision (Result A).
Proof. solve_decision. Defined.

(** [.order(column, { ascending })]; [.order(column)] is ascending. *)
Record Order : Type := MkOrder { column : string; ascending : bool }.

#[global] Instance Order_eq_dec : EqDecision Order.
Proof. solve_decision. Defined.

(** [.eq(column, value)] *)
Inductive Filter : Type :=
| FEq (col : string) (v : Val).

#[global] Instance Filter_eq_dec : EqDecision Filter.
Proof. solve_decision. Defined.

(** The requests the hook sends, as it builds them. *)
Inductive Request : Type :=
| RSelect (table : string) (filters : list Filter) (order : Order)
    (* from(table).select('*')[.eq(..)].order(..) *)
| RInsertSingle (table : string) (rows : list Obj)
    (* from(table).insert(rows).select().single() *)
| RUpdate (table : string) (patch : Obj) (filters : list Filter)
    (* from(table).update(patch).eq(..) *)
| RDelete (table : string) (filters : list Filter).
    (* from(table).delete().eq(..) *)

#[global] Instance Request_eq_dec : EqDecision Request.
Proof. solve_decision. Defined.

(** The remote platform: any state [R] and any answers. The promise of
    a request resolves with a reply or rejects; the outcome may depend on
    everything that happened before, and may change the remote state. *)
Class Client (R : Type) : Type := {
  exec_select : string → list Filter → Order → R → Result (Reply (list Obj)) * R;
  exec_insert_single : string → list Obj → R → Result (Reply Obj) * R;
  exec_update : string → Obj → list Filter → R → Result (Reply unit) * R;
  exec_delete : string → list Filter → R → Result (Reply unit) * R
}.

(** A request fails when its promise rejects or its reply carries an error. *)
Definition failure {A} (res : Result (Reply A)) : option Error :=
  match res with
  | Thrown e => Some e
  | Normal rep => error rep
  end.

(** The [data] a request resolved with, if any. *)
Definition payload {A} (res : Result (Reply A)) : option A :=
  match res with
  | Thrown _ => None
  | Normal rep => data rep
  end.

(** ** The hook's state and its observable effects *)

Record Store : Type := MkStore {
  registrations : list Obj;
  categories : list Obj;
  panchayaths : list Obj;
  announcements : list Obj;
  photoGallery : list Obj;
  notifications : list Obj;
  loading : bool
}.

(** [useState([])] six times and [useState(true)]. *)
Definition initial_store : Store :=
  MkStore [] [] [] [] [] [] true.

#[global] Instance Store_eq_dec : EqDecision Store.
Proof. solve_decision. Defined.

(** The six collections, in the order [fetchData] loads them. *)
Inductive Coll : Type :=
| Categories | Panchayaths | Announcements | PhotoGallery | Registrations | Notifications.

#[global] Instance Coll_eq_dec : EqDecision Coll.
Proof. solve_decision. Defined.

Definition all_colls : list Coll :=
  [Categories; Panchayaths; Announcements; PhotoGallery; Registrations; Notifications].

Definition get_coll (c : Coll) (s : Store) : list Obj :=
  match c with
  | Categories => categories s
  | Panchayaths => panchayaths s
  | Announcements => announcements s
  | PhotoGallery => photoGallery s
  | Registrations => registrations s
  | Notifications => notifications s
  end.

Definition set_coll (c : Coll) (v : list Obj) (s : Store) : Store :=
  match c with
  | Categories =>
      MkStore (registrations s) v (panchayaths s) (announcements s) (photoGallery s) (notifications s) (loading s)
  | Panchayaths =>
      MkStore (registrations s) (categories s) v (announcements s) (photoGallery s) (notifications s) (loading s)
  | Announcements =>
      MkStore (registrations s) (categories s) (panchayaths s) v (photoGallery s) (notifications s) (loading s)
  | PhotoGallery =>
      MkStore (registrations s) (categories s) (panchayaths s) (announcements s) v (notifications s) (loading s)
  | Registrations =>
      MkStore v (categories s) (panchayaths s) (announcements s) (photoGallery s) (notifications s) (loading s)
  | Notifications =>
      MkStore (registrations s) (categories s) (panchayaths s) (announcements s) (photoGallery s) v (loading s)
  end.

Definition set_loading (b : bool) (s : Store) : Store :=
  MkStore (registrations s) (categories s) (panchayaths s) (announcements s)
          (photoGallery s) (notifications s) b.

Record Toast : Type := MkToast {
  title : string;
  description : string;
  variant : option string
}.

#[global] Instance Toast_eq_dec : EqDecision Toast.
Proof. solve_decision. Defined.

Inductive Event : Type :=
| ERequest (rq : Request)
| ESet (c : Coll) (v : list Obj)
| ESetLoading (b : bool)
| EConsoleError (msg : string) (e : Error)
| EToast (t : Toast).

#[global] Instance Event_eq_dec : EqDecision Event.
Proof. solve_decision. Defined.

Record World (R : Type) : Type := MkWorld {
  store : Store;
  remote : R;
  clock : string;          (* what [new Date().toISOString()] reads *)
  trace : list Event       (* oldest first *)
}.
Arguments MkWorld {R} _ _ _ _.
Arguments store {R} _.
Arguments remote {R} _.
Arguments clock {R} _.
Arguments trace {R} _.

(** ** Computations: state plus [throw] *)

Definition Prog (R A : Type) : Type := World R → Result A * World R.

Definition ret {R A} (a : A) : Prog R A := λ w, (Normal a, w).

Definition bind {R A B} (m : Prog R A) (k : A → Prog R B) : Prog R B :=
  λ w, match m w with
       | (Normal a, w') => k a w'
       | (Thrown e, w') => (Thrown e, w')
       end.

Definition throw {R A} (e : Error) : Prog R A := λ w, (Thrown e, w).

(** [try { body } catch (error) { handler }] *)
Definition try_catch {R A} (body : Prog R A) (handler : Error → Prog R A) : Prog R A :=
  λ w, match body w with
       | (Normal a, w') => (Normal a, w')
       | (Thrown e, w') => handler e w'
       end.

(** [try { body } finally { cleanup }]: the cleanup runs on both exits and
    the body's outcome is kept, unless the cleanup itself throws. *)
Definition try_finally {R A} (body : Prog R A) (cleanup : Prog R unit) : Prog R A :=
  λ w, match body w with
       | (res, w') =>
           match cleanup w' with
           | (Normal _, w'') => (res, w'')
           | (Thrown e, w'') => (Thrown e, w'')
           end
       end.

#[global] Instance Prog_ret {R} : MRet (Prog R) := λ A a, ret a.
#[global] Instance Prog_bind {R} : MBind (Prog R) := λ A B k m, bind m k.

(** [data || []] *)
Definition or_empty {A} (d : option (list A)) : list A :=
  match d with Some l => l | None => [] end.

(** JS truthiness of an optional string argument: [undefined] and the
    empty string are falsy. *)
Definition truthy (s : option string) : bool :=
  match s with
  | Some s => negb (String.eqb s "")
  | None => false
  end.

Inductive Status : Type := approved | rejected.

Definition status_str (s : Status) : string :=
  match s with approved => "approved" | rejected => "rejected" end.

Definition valid_audiences : list string := ["all"; "category"; "panchayath"; "admin"].

(** The type guard of [fetchData]:
    [['all', 'category', 'panchayath', 'admin'].includes(notif.target_audience)] *)
Definition valid_audience (notif : Obj) : bool :=
  includes valid_audiences (prop notif "target_audience").

Section Hook.
Context {R : Type} {client : Client R}.

(** *** Primitive effects *)

Definition emit (ev : Event) (w : World R) : World R :=
  MkWorld (store w) (remote w) (clock w) (trace w ++ [ev]).

Definition with_store (f : Store → Store) (w : World R) : World R :=
  MkWorld (f (store w)) (remote w) (clock w) (trace w).

Definition setColl (c : Coll) (v : list Obj) : Prog R unit :=
  λ w, (Normal tt, emit (ESet c v) (with_store (set_coll c v) w)).

Definition setCategories := setColl Categories.
Definition setPanchayaths := setColl Panchayaths.
Definition setAnnouncements := setColl Announcements.
Definition setPhotoGallery := setColl PhotoGallery.
Definition setRegistrations := setColl Registrations.
Definition setNotifications := setColl Notifications.

Definition setLoading (b : bool) : Prog R unit :=
  λ w, (Normal tt, emit (ESetLoading b) (with_store (set_loading b) w)).

Definition console_error (msg : string) (e : Error) : Prog R unit :=
  λ w, (Normal tt, emit (EConsoleError msg e) w).

Definition toast (t : Toast) : Prog R unit :=
  λ w, (Normal tt, emit (EToast t) w).

(** [new Date().toISOString()] *)
Definition Date_now_toISOString : Prog R string :=
  λ w, (Normal (clock w), w).

(** [await] of one request: the request is recorded, the remote moves. *)
Definition await {A} (rq : Request) (run : R → Result (Reply A) * R) : Prog R (Reply A) :=
  λ w, let '(res, r') := run (remote w) in
       (res, MkWorld (store w) r' (clock w) (trace w ++ [ERequest rq])).

Definition supabase_select (table : string) (filters : list Filter) (order : Order)
  : Prog R (Reply (list Obj)) :=
  await (RSelect table filters order) (exec_select table filters order).

Definition supabase_insert_single (table : string) (rows : list Obj) : Prog R (Reply Obj) :=
  await (RInsertSingle table rows) (exec_insert_single table rows).

Definition supabase_update (table : string) (patch : Obj) (filters : list Filter)
  : Prog R (Reply unit) :=
  await (RUpdate table patch filters) (exec_update table patch filters).

Definition supabase_delete (table : string) (filters : list Filter) : Prog R (Reply unit) :=
  await (RDelete table filters) (exec_delete table filters).

(** [if (error) throw error;] *)
Definition throw_if (e : option Error) : Prog R unit :=
  match e with
  | Some e => throw e
  | None => ret tt
  end.

Definition destructive (ttl descr : string) : Toast := MkToast ttl descr (Some "destructive").
Definition plain (ttl descr : string) : Toast := MkToast ttl descr None.

(** *** [fetchData] *)

Definition fetchData : Prog R unit :=
  try_finally
    (try_catch
       (setLoading true;;
        r ← supabase_select "categories" [] (MkOrder "name" true);
        throw_if (error r);;
        setCategories (or_empty (data r));;
        r ← supabase_select "panchayaths" [] (MkOrder "malayalam_name" true);
        throw_if (error r);;
        setPanchayaths (or_empty (data r));;
        r ← supabase_select "announcements" [FEq "is_active" (VBool true)]
              (MkOrder "created_at" false);
        throw_if (error r);;
        setAnnouncements (or_empty (data r));;
        r ← supabase_select "photo_gallery" [] (MkOrder "uploaded_at" false);
        throw_if (error r);;
        setPhotoGallery (or_empty (data r));;
        r ← supabase_select "registrations" [] (MkOrder "submitted_at" false);
        throw_if (error r);;
        setRegistrations (or_empty (data r));;
        r ← supabase_select "push_notifications" [] (MkOrder "created_at" false);
        throw_if (error r);;
        let validNotifications := filter (λ notif, valid_audience notif = true) (or_empty (data r)) in
        setNotifications validNotifications)
       (λ e,
          console_error "Error fetching data:" e;;
          toast (destructive "Error" "Failed to load data. Please try again.")))
    (setLoading false).

(** *** The mutators *)

Definition createRegistration (registrationData : Obj) : Prog R (option Obj) :=
  try_catch
    (r ← supabase_insert_single "registrations" [registrationData];
     throw_if (error r);;
     toast (plain "Registration Submitted"
              "Your registration has been submitted successfully.");;
     fetchData;;
     ret (data r))
    (λ e,
       console_error "Error creating registration:" e;;
       toast (destructive "Error" "Failed to submit registration. Please try again.");;
       ret None).

(** [{ status, approved_at }], then [unique_id] under [if (uniqueId)]. *)
Definition updateData (status : Status) (now : string) (uniqueId : option string) : Obj :=
  let updateData : Obj :=
    {[ "status" := VStr (status_str status); "approved_at" := VStr now ]} in
  match uniqueId with
  | Some u => if truthy uniqueId then <["unique_id" := VStr u]> updateData else updateData
  | None => updateData
  end.

Definition updateRegistrationStatus (id : string) (status : Status) (uniqueId : option string)
  : Prog R bool :=
  try_catch
    (now ← Date_now_toISOString;
     r ← supabase_update "registrations" (updateData status now uniqueId) [FEq "id" (VStr id)];
     throw_if (error r);;
     toast (plain "Registration Updated"
              ("Registration has been " +:+ status_str status +:+ "."));;
     fetchData;;
     ret true)
    (λ e,
       console_error "Error updating registration:" e;;
       toast (destructive "Error" "Failed to update registration. Please try again.");;
       ret false).

Definition deleteRegistration (id : string) : Prog R bool :=
  try_catch
    (r ← supabase_delete "registrations" [FEq "id" (VStr id)];
     throw_if (error r);;
     toast (plain "Registration Deleted" "Registration has been deleted successfully.");;
     fetchData;;
     ret true)
    (λ e,
       console_error "Error deleting registration:" e;;
       toast (destructive "Error" "Failed to delete registration. Please try again.");;
       ret false).

Definition updateCategoryImage (categoryName imageUrl : string) : Prog R bool :=
  try_catch
    (r ← supabase_update "categories" {[ "image_url" := VStr imageUrl ]}
           [FEq "name" (VStr categoryName)];
     throw_if (error r);;
     toast (plain "Category Updated" "Category image has been updated successfully.");;
     fetchData;;
     ret true)
    (λ e,
       console_error "Error updating category image:" e;;
       toast (destructive "Error" "Failed to update category image. Please try again.");;
       ret false).

(** The fees are JS numbers; they are carried to the request and never
    computed with. *)
Definition updateCategoryFees (categoryName : string) (actualFee offerFee : Z) (hasOffer : bool)
  : Prog R bool :=
  try_catch
    (r ← supabase_update "categories"
           {[ "actual_fee" := VNum actualFee; "offer_fee" := VNum offerFee;
              "has_offer" := VBool hasOffer ]}
           [FEq "name" (VStr categoryName)];
     throw_if (error r);;
     toast (plain "Category Updated" "Category fees have been updated successfully.");;
     fetchData;;
     ret true)
    (λ e,
       console_error "Error updating category fees:" e;;
       toast (destructive "Error" "Failed to update category fees. Please try again.");;
       ret false).

(** *** What one call of [fetchData] does, as a function of the answers

    The six queries in the order of the source, and the value each
    collection receives from the rows of its reply. *)

Definition query (c : Coll) : string * list Filter * Order :=
  match c with
  | Categories => ("categories", [], MkOrder "name" true)
  | Panchayaths => ("panchayaths", [], MkOrder "malayalam_name" true)
  | Announcements =>
      ("announcements", [FEq "is_active" (VBool true)], MkOrder "created_at" false)
  | PhotoGallery => ("photo_gallery", [], MkOrder "uploaded_at" false)
  | Registrations => ("registrations", [], MkOrder "submitted_at" false)
  | Notifications => ("push_notifications", [], MkOrder "created_at" false)
  end.

Definition request_of (c : Coll) : Request :=
  let '(t, fs, o) := query c in RSelect t fs o.

Definition run_query (c : Coll) (r : R) : Result (Reply (list Obj)) * R :=
  let '(t, fs, o) := query c in exec_select t fs o r.

(** The answers of the remote to the queries of [cs], sent one after the
    other from the remote state [r]. *)
Fixpoint answers (cs : list Coll) (r : R) : list (Result (Reply (list Obj))) :=
  match cs with
  | [] => []
  | c :: cs' => let '(res, r') := run_query c r in res :: answers cs' r'
  end.

Fixpoint remote_after (cs : list Coll) (r : R) : R :=
  match cs with
  | [] => r
  | c :: cs' => remote_after cs' (snd (run_query c r))
  end.

Definition coll_index (c : Coll) : nat :=
  match c with
  | Categories => 0 | Panchayaths => 1 | Announcements => 2
  | PhotoGallery => 3 | Registrations => 4 | Notifications => 5
  end.

(** The answer to the query of collection [c] in a refresh that starts
    from the remote state [r] (the earlier queries have been sent). *)
Definition answer (c : Coll) (r : R) : Result (Reply (list Obj)) :=
  fst (run_query c (remote_after (take (coll_index c) all_colls) r)).

(** The rows of a reply, [data || []]. *)
Definition rows_of (res : Result (Reply (list Obj))) : list Obj := or_empty (payload res).

(** What [fetchData] stores for [c] from the rows of its reply. *)
Definition stored (c : Coll) (rows : list Obj) : list Obj :=
  match c with
  | Notifications => filter (λ notif, valid_audience notif = true) rows
  | _ => rows
  end.

(** The assignments of one refresh: in order, until the first failure. *)
Fixpoint assign (cs : list Coll) (ans : list (Result (Reply (list Obj)))) (s : Store) : Store :=
  match cs, ans with
  | c :: cs', res :: ans' =>
      match failure res with
      | Some _ => s
      | None => assign cs' ans' (set_coll c (stored c (rows_of res)) s)
      end
  | _, _ => s
  end.

Definition failure_events (e : Error) : list Event :=
  [EConsoleError "Error fetching data:" e;
   EToast (destructive "Error" "Failed to load data. Please try again.")].

(** The events of the body of one refresh. *)
Fixpoint events (cs : list Coll) (ans : list (Result (Reply (list Obj)))) : list Event :=
  match cs, ans with
  | c :: cs', res :: ans' =>
      ERequest (request_of c) ::
      match failure res with
      | Some e => failure_events e
      | None => ESet c (stored c (rows_of res)) :: events cs' ans'
      end
  | _, _ => []
  end.

(** How many of the queries are sent: up to and including the first
    failing one. *)
Fixpoint sent (cs : list Coll) (ans : list (Result (Reply (list Obj)))) : list Coll :=
  match cs, ans with
  | c :: cs', res :: ans' =>
      c :: match failure res with Some _ => [] | None => sent cs' ans' end
  | _, _ => []
  end.

Definition refreshed (w : World R) : World R :=
  let ans := answers all_colls (remote w) in
  MkWorld (set_loading false (assign all_colls ans (set_loading true (store w))))
          (remote_after (sent all_colls ans) (remote w))
          (clock w)
          (trace w ++ ESetLoading true :: events all_colls ans ++ [ESetLoading false]).

(** *** Calls of the hook's functions *)

Inductive Mutation : Type :=
| CreateRegistration (registrationData : Obj)
| UpdateRegistrationStatus (id : string) (status : Status) (uniqueId : option string)
| DeleteRegistration (id : string)
| UpdateCategoryImage (categoryName imageUrl : string)
| UpdateCategoryFees (categoryName : string) (actualFee offerFee : Z) (hasOffer : bool).

(** What a mutator hands back: the inserted row or [null], or a boolean. *)
Inductive Returned : Type :=
| RetRow (d : option Obj)
| RetBool (b : bool).

#[global] Instance Returned_eq_dec : EqDecision Returned.
Proof. solve_decision. Defined.

Definition returning {A} (f : A → Returned) (m : Prog R A) : Prog R Returned :=
  λ w, match m w with
       | (Normal a, w') => (Normal (f a), w')
       | (Thrown e, w') => (Thrown e, w')
       end.

Definition call (m : Mutation) : Prog R Returned :=
  match m with
  | CreateRegistration d => returning RetRow (createRegistration d)
  | UpdateRegistrationStatus id st u => returning RetBool (updateRegistrationStatus id st u)
  | DeleteRegistration id => returning RetBool (deleteRegistration id)
  | UpdateCategoryImage n url => returning RetBool (updateCategoryImage n url)
  | UpdateCategoryFees n a o h => returning RetBool (updateCategoryFees n a o h)
  end.

Definition boolean (m : Mutation) : bool :=
  match m with
  | CreateRegistration _ => false
  | _ => true
  end.

(** The one remote write of a mutator called at time [now]. *)
Definition write_request (m : Mutation) (now : string) : Request :=
  match m with
  | CreateRegistration d => RInsertSingle "registrations" [d]
  | UpdateRegistrationStatus id st u =>
      RUpdate "registrations" (updateData st now u) [FEq "id" (VStr id)]
  | DeleteRegistration id => RDelete "registrations" [FEq "id" (VStr id)]
  | UpdateCategoryImage n url =>
      RUpdate "categories" {[ "image_url" := VStr url ]} [FEq "name" (VStr n)]
  | UpdateCategoryFees n a o h =>
      RUpdate "categories"
        {[ "actual_fee" := VNum a; "offer_fee" := VNum o; "has_offer" := VBool h ]}
        [FEq "name" (VStr n)]
  end.

(** The remote's outcome for a request: its failure, if any, and the
    remote state it leaves. *)
Definition perform_request (rq : Request) (r : R) : option Error * R :=
  match rq with
  | RSelect t fs o => let '(res, r') := exec_select t fs o r in (failure res, r')
  | RInsertSingle t rows => let '(res, r') := exec_insert_single t rows r in (failure res, r')
  | RUpdate t p fs => let '(res, r') := exec_update t p fs r in (failure res, r')
  | RDelete t fs => let '(res, r') := exec_delete t fs r in (failure res, r')
  end.

Definition write_failure (m : Mutation) (w : World R) : option Error :=
  fst (perform_request (write_request m (clock w)) (remote w)).

(** The world once the write of [m] has been answered. *)
Definition written (m : Mutation) (w : World R) : World R :=
  MkWorld (store w) (snd (perform_request (write_request m (clock w)) (remote w)))
          (clock w) (trace w ++ [ERequest (write_request m (clock w))]).

Definition success_toast (m : Mutation) : Toast :=
  match m with
  | CreateRegistration _ =>
      plain "Registration Submitted" "Your registration has been submitted successfully."
  | UpdateRegistrationStatus _ st _ =>
      plain "Registration Updated" ("Registration has been " +:+ status_str st +:+ ".")
  | DeleteRegistration _ =>
      plain "Registration Deleted" "Registration has been deleted successfully."
  | UpdateCategoryImage _ _ =>
      plain "Category Updated" "Category image has been updated successfully."
  | UpdateCategoryFees _ _ _ _ =>
      plain "Category Updated" "Category fees have been updated successfully."
  end.

Definition failure_report (m : Mutation) (e : Error) : list Event :=
  match m with
  | CreateRegistration _ =>
      [EConsoleError "Error creating registration:" e;
       EToast (destructive "Error" "Failed to submit registration. Please try again.")]
  | UpdateRegistrationStatus _ _ _ =>
      [EConsoleError "Error updating registration:" e;
       EToast (destructive "Error" "Failed to update registration. Please try again.")]
  | DeleteRegistration _ =>
      [EConsoleError "Error deleting registration:" e;
       EToast (destructive "Error" "Failed to delete registration. Please try again.")]
  | UpdateCategoryImage _ _ =>
      [EConsoleError "Error updating category image:" e;
       EToast (destructive "Error" "Failed to update category image. Please try again.")]
  | UpdateCategoryFees _ _ _ _ =>
      [EConsoleError "Error updating category fees:" e;
       EToast (destructive "Error" "Failed to update category fees. Please try again.")]
  end.

Definition add_events (evs : list Event) (w : World R) : World R :=
  MkWorld (store w) (remote w) (clock w) (trace w ++ evs).

(** The world a mutator leaves: the write, then either the success toast
    and a refresh, or the failure report. *)
Definition mutated (m : Mutation) (w : World R) : World R :=
  match write_failure m w with
  | None => refreshed (emit (EToast (success_toast m)) (written m w))
  | Some e => add_events (failure_report m e) (written m w)
  end.

(** Everything a client of the hook can do, and the passing of time. *)
Inductive Call : Type :=
| Refresh
| Mutate (m : Mutation)
| Tick (now : string).

Definition perform (c : Call) (w : World R) : World R :=
  match c with
  | Refresh => snd (fetchData w)
  | Mutate m => snd (call m w)
  | Tick now => MkWorld (store w) (remote w) now (trace w)
  end.

Definition perform_all (cs : list Call) (w : World R) : World R :=
  foldl (λ w c, perform c w) w cs.

(** The hook at its first render. *)
Definition rendered (r : R) (now : string) : World R :=
  MkWorld initial_store r now [].

(** *** Reading a trace *)

(** The events a call added. *)
Definition new_events (w w' : World R) : list Event :=
  drop (length (trace w)) (trace w').

Definition requests (evs : list Event) : list Request :=
  omap (λ ev, match ev with ERequest rq => Some rq | _ => None end) evs.

(** The collections assigned, in the order of the assignments. *)
Definition assigned_colls (evs : list Event) : list Coll :=
  omap (λ ev, match ev with ESet c _ => Some c | _ => None end) evs.

Definition is_select (rq : Request) : bool :=
  match rq with RSelect _ _ _ => true | _ => false end.

(** *** Properties of rows used in the statements *)

(** What [createRegistration] returns: the reply's [data] when the insert
    did not fail, [null] otherwise. *)
Definition created (d : Obj) (w : World R) : option Obj :=
  let res := fst (exec_insert_single "registrations" [d] (remote w)) in
  match failure res with
  | None => payload res
  | Some _ => None
  end.

(** Every exposed notification passed the type guard. *)
Definition all_valid (s : Store) : Prop :=
  Forall (λ notif, valid_audience notif = true) (notifications s).


(** The [target_audience] of a record is one of the four audiences. *)
Definition audience_in_set (notif : Obj) : Prop :=
  ∃ a, notif !! "target_audience" = Some (VStr a) ∧ a ∈ valid_audiences.


(** *** More readers of a trace *)

Definition toasts (evs : list Event) : list Toast :=
  omap (λ ev, match ev with EToast t => Some t | _ => None end) evs.

Definition console_errors (evs : list Event) : list (string * Error) :=
  omap (λ ev, match ev with EConsoleError msg e => Some (msg, e) | _ => None end) evs.

Definition loading_changes (evs : list Event) : list bool :=
  omap (λ ev, match ev with ESetLoading b => Some b | _ => None end) evs.

(** The error of the first answer that is a failure. *)
Fixpoint first_failure (ans : list (Result (Reply (list Obj)))) : option Error :=
  match ans with
  | [] => None
  | res :: ans' =>
      match failure res with
      | Some e => Some e
      | None => first_failure ans'
      end
  end.

(** The toast [fetchData] shows when a query fails. *)
Definition load_failed : Toast :=
  destructive "Error" "Failed to load data. Please try again.".

(** What a mutator returns, read off its [return] statements: the write
    decides, the refresh does not. *)
Definition returned (m : Mutation) (w : World R) : Returned :=
  match m with
  | CreateRegistration d => RetRow (created d w)
  | _ => RetBool (bool_decide (write_failure m w = None))
  end.

End Hook.

(** ** A reference remote

    Modelled from the spec: the remote collaborator itself is not part of
    the repository. Per named collection it offers [select(filter?, order?)],
    [insert(record)], [update(filter, patch)] and [delete(filter)], each
    answering with records or an error. The statements about the hook hold
    for every [Client]; this one serves to run the hook on concrete data. *)

(** Modelled from the spec: the filter [.eq(col, v)] of the remote client
    selects the rows that have the property with the value [v]. *)
Definition matches1 (f : Filter) (row : Obj) : bool :=
  match f with
  | FEq col v => bool_decide (row !! col = Some v)
  end.

Definition matches (fs : list Filter) (row : Obj) : bool :=
  forallb (λ f, matches1 f row) fs.

(** Modelled from the spec: [update(filter, patch)] of the remote client,
    on the rows of a collection. The rows the filter selects receive the
    properties of the patch, the others stay as they are. *)
Definition update_rows (patch : Obj) (fs : list Filter) (rows : list Obj) : list Obj :=
  (λ row, if matches fs row then patch ∪ row else row) <$> rows.

(** Modelled from the spec: [delete(filter)] of the remote client removes
    the rows the filter selects. *)
Definition delete_rows (fs : list Filter) (rows : list Obj) : list Obj :=
  filter (λ row, matches fs row = false) rows.

Module Ref.

(** Absent and [null] first, then booleans, numbers and strings. *)
Definition val_leb (a b : option Val) : bool :=
  match a, b with
  | None, _ | Some VNull, _ => true
  | Some (VBool x), Some (VBool y) => implb x y
  | Some (VBool _), Some (VNum _ | VStr _) => true
  | Some (VNum x), Some (VNum y) => (x <=? y)%Z
  | Some (VNum _), Some (VStr _) => true
  | Some (VStr x), Some (VStr y) => String.leb x y
  | _, _ => false
  end.

Definition row_leb (o : Order) (x y : Obj) : bool :=
  if ascending o then val_leb (x !! column o) (y !! column o)
  else val_leb (y !! column o) (x !! column o).

Fixpoint insert_row (o : Order) (x : Obj) (l : list Obj) : list Obj :=
  match l with
  | [] => [x]
  | y :: l' => if row_leb o x y then x :: l else y :: insert_row o x l'
  end.

(** A stable insertion sort on the ordering column. *)
Definition sort_rows (o : Order) (l : list Obj) : list Obj :=
  foldr (insert_row o) [] l.

(** How the remote behaves at the next request. *)
Inductive Health : Type :=
| Up
| Refuses (e : Error)     (* the reply carries [e] *)
| Rejects (e : Error).    (* the promise rejects with [e] *)

Record Db : Type := MkDb {
  tables : gmap string (list Obj);
  health : list Health;   (* one entry per coming request, then [Up] *)
  next_id : nat;
  server_time : string
}.

Definition rows (t : string) (db : Db) : list Obj := default [] (tables db !! t).

Definition next_health (db : Db) : Health * Db :=
  match health db with
  | [] => (Up, db)
  | h :: hs => (h, MkDb (tables db) hs (next_id db) (server_time db))
  end.

Definition with_rows (t : string) (l : list Obj) (db : Db) : Db :=
  MkDb (<[t := l]> (tables db)) (health db) (next_id db) (server_time db).

(** One request: the health decides whether [run] is applied. *)
Definition serve {A} (run : Db → option A * Db) (db : Db) : Result (Reply A) * Db :=
  match next_health db with
  | (Up, db') => let '(d, db'') := run db' in (Normal (MkReply d None), db'')
  | (Refuses e, db') => (Normal (MkReply None (Some e)), db')
  | (Rejects e, db') => (Thrown e, db')
  end.

Definition select (t : string) (fs : list Filter) (o : Order) : Db → Result (Reply (list Obj)) * Db :=
  serve (λ db, (Some (sort_rows o (filter (λ row, matches fs row = true) (rows t db))), db)).

(** The server assigns [id] and [submitted_at] to an inserted row. *)
Definition assigned (db : Db) (row : Obj) : Obj :=
  <["id" := VStr ("r" +:+ pretty (next_id db))]>
    (<["submitted_at" := VStr (server_time db)]> row).

(** [insert(rows).select().single()]: the one inserted row comes back. *)
Definition insert_single (t : string) (new : list Obj) : Db → Result (Reply Obj) * Db :=
  match new with
  | [row] =>
      serve (λ db,
        let row' := assigned db row in
        (Some row',
         MkDb (<[t := rows t db ++ [row']]> (tables db)) (health db)
              (S (next_id db)) (server_time db)))
  | _ => λ db, (Normal (MkReply None (Some (MkError "JSON object requested, multiple (or no) rows returned"))), db)
  end.

Definition update (t : string) (patch : Obj) (fs : list Filter) : Db → Result (Reply unit) * Db :=
  serve (λ db, (None, with_rows t (update_rows patch fs (rows t db)) db)).

Definition delete (t : string) (fs : list Filter) : Db → Result (Reply unit) * Db :=
  serve (λ db, (None, with_rows t (delete_rows fs (rows t db)) db)).

#[global] Instance client : Client Db := {|
  exec_select := select;
  exec_insert_single := insert_single;
  exec_update := update;
  exec_delete := delete
|}.

(** What a query of the hook selects from the tables, sorted. *)
Definition view (c : Coll) (db : Db) : list Obj :=
  let '(t, fs, o) := query c in
  sort_rows o (filter (λ row, matches fs row = true) (rows t db)).

(** No failure is scheduled: every coming request is served. *)
Definition healthy (db : Db) : Prop := health db = [].

(** *** Sample data *)

Definition category (name : string) (fee : Z) : Obj :=
  {[ "name" := VStr name; "label" := VStr name; "actual_fee" := VNum fee;
     "offer_fee" := VNum fee; "has_offer" := VBool false ]}.

Definition panchayath (ml en : string) : Obj :=
  {[ "malayalam_name" := VStr ml; "english_name" := VStr en; "district" := VStr "Malappuram" ]}.

Definition notification (id audience created : string) : Obj :=
  {[ "id" := VStr id; "title" := VStr "t"; "content" := VStr "c";
     "target_audience" := VStr audience; "is_active" := VBool true;
     "created_at" := VStr created ]}.

Definition registration (id name status : string) : Obj :=
  {[ "id" := VStr id; "full_name" := VStr name; "status" := VStr status;
     "submitted_at" := VStr "2025-01-01T00:00:00.000Z" ]}.

Definition applicant (name : string) : Obj :=
  {[ "full_name" := VStr name; "mobile_number" := VStr "9000000000";
     "whatsapp_number" := VStr "9000000000"; "address" := VStr "a";
     "panchayath_details" := VStr "p"; "category" := VStr "pennyekart";
     "status" := VStr "pending" ]}.

Definition sample_tables : gmap string (list Obj) :=
  {[ "categories" := [category "pennyekart" 300; category "farmelife" 100;
                      category "foodelife" 200];
     "panchayaths" := [panchayath "b" "Vengara"; panchayath "a" "Kondotty"];
     "announcements" := [];
     "photo_gallery" := [];
     "registrations" := [registration "r0" "Asha" "pending";
                         registration "r1" "Binu" "pending"];
     "push_notifications" := [notification "n1" "all" "2025-01-01";
                              notification "n2" "everyone" "2025-01-02";
                              notification "n3" "admin" "2025-01-03"] ]}.

Definition sample (health : list Health) : Db :=
  MkDb sample_tables health 2 "2025-02-02T00:00:00.000Z".

Definition down : Error := MkError "service unavailable".

(** The hook just rendered for the first time, facing [db]. *)
Definition fresh (db : Db) : World Db :=
  MkWorld initial_store db "2025-03-03T00:00:00.000Z" [].

(** A session of the hook: first load, a registration, an approval. *)
Definition session : list Call :=
  [Refresh; Mutate (CreateRegistration (applicant "Chinnu")); Tick "2025-03-04T00:00:00.000Z";
   Mutate (UpdateRegistrationStatus "r2" approved (Some "U123"))].

End Ref.

(** ** A remote that answers with nothing

    A client whose every request resolves with neither [data] nor [error],
    the reply [{ data: null, error: null }]. *)

Module Mute.

#[global] Instance client : Client unit := {|
  exec_select := λ _ _ _ r, (Normal (MkReply None None), r);
  exec_insert_single := λ _ _ r, (Normal (MkReply None None), r);
  exec_update := λ _ _ _ r, (Normal (MkReply None None), r);
  exec_delete := λ _ _ r, (Normal (MkReply None None), r)
|}.

(** The hook just rendered for the first time, facing this remote. *)
Definition fresh : World unit :=
  MkWorld initial_store tt "2025-03-03T00:00:00.000Z" [].

End Mute.

(** ** The authentication context ([src/hooks/useAuth.tsx]) *)

Module Auth.

(** The remote's user object, named by its identifier. *)
Definition User : Type := string.

(** The JS values that flow through the context. *)
#[warnings="-register-all"] Inductive Value : Type :=
| Null
| UserV (u : User)
| Object (props : list (string * Value)).

(** A session; [session.user] may be missing. *)
Record Session : Type := MkSession { session_user : option User }.

(** The [data] of [getSession()]; [data.session] is [null] when nobody
    is signed in. *)
Record SessionData : Type := MkData { session : option Session }.

(** [session?.user ?? null] *)
Definition user_of_session (s : option Session) : Value :=
  match s with
  | Some (MkSession (Some u)) => UserV u
  | _ => Null
  end.

(** [data?.session?.user ?? null] *)
Definition user_of_data (d : option SessionData) : Value :=
  match d with
  | Some d => user_of_session (session d)
  | None => Null
  end.

(** The life of one provider: rendered (the effect has not run yet),
    mounted (the effect has run), unmounted (its cleanup has run). React
    runs the effect of [useEffect(.., [])] once after the first render
    and its cleanup once at teardown. *)
Inductive Phase : Type := Rendered | Mounted | Unmounted.

Inductive Event : Type :=
| GetSession                     (* supabase.auth.getSession() was called *)
| Subscribed (h : nat)           (* onAuthStateChange registered listener h *)
| Unsubscribed (h : nat)         (* subscription h was unsubscribed *)
| ThenCallback (v : Value)       (* the .then callback ran: setUser(v) *)
| ListenerCallback (v : Value).  (* the listener ran: setUser(v) *)

Record World : Type := MkWorld {
  user : Value;             (* useState(null) *)
  phase : Phase;
  pending : nat;            (* getSession promises not resolved yet *)
  held : option nat;        (* [listener.subscription], kept by the cleanup *)
  subscribers : list nat;   (* the listeners registered at the client *)
  next_handle : nat;
  log : list Event          (* oldest first *)
}.

Definition initial : World := MkWorld Null Rendered 0 None [] 0 [].

Definition record (ev : Event) (w : World) : World :=
  MkWorld (user w) (phase w) (pending w) (held w) (subscribers w) (next_handle w)
          (log w ++ [ev]).

(** [setUser(v)]; React drops the update of a provider that is not
    mounted. *)
Definition setUser (v : Value) (w : World) : World :=
  match phase w with
  | Mounted =>
      MkWorld v (phase w) (pending w) (held w) (subscribers w) (next_handle w) (log w)
  | _ => w
  end.

(** Modelled from the spec: the session API of the remote client,
    [getCurrentSession() -> session or none] and
    [onSessionChange(callback) -> subscription handle]. The client keeps
    the registered listeners; a session change calls the listeners that
    are registered at that time; [unsubscribe] removes one. *)
Definition getSession (w : World) : World :=
  record GetSession
    (MkWorld (user w) (phase w) (S (pending w)) (held w) (subscribers w)
             (next_handle w) (log w)).

Definition onAuthStateChange (w : World) : nat * World :=
  let h := next_handle w in
  (h, record (Subscribed h)
        (MkWorld (user w) (phase w) (pending w) (held w) (h :: subscribers w)
                 (S h) (log w))).

Definition unsubscribe (h : nat) (w : World) : World :=
  record (Unsubscribed h)
    (MkWorld (user w) (phase w) (pending w) (held w)
             (filter (λ h', h' ≠ h) (subscribers w)) (next_handle w) (log w)).

(** The body of the effect: the session query is sent, the listener is
    registered, and the effect is over (the provider is mounted). *)
Definition effect (w : World) : World :=
  let w := getSession w in
  let '(listener, w) := onAuthStateChange w in
  MkWorld (user w) Mounted (pending w) (Some listener) (subscribers w)
          (next_handle w) (log w).

(** [return () => { listener.subscription.unsubscribe(); }] *)
Definition cleanup (w : World) : World :=
  let w := match held w with
           | Some listener => unsubscribe listener w
           | None => w
           end in
  MkWorld (user w) Unmounted (pending w) (held w) (subscribers w)
          (next_handle w) (log w).

(** [.then(({ data }) => { setUser(data?.session?.user ?? null); })] *)
Definition then_callback (data : option SessionData) (w : World) : World :=
  setUser (user_of_data data) (record (ThenCallback (user_of_data data)) w).

(** [(_event, session) => { setUser(session?.user ?? null); }] *)
Definition listener_callback (s : option Session) (w : World) : World :=
  setUser (user_of_session s) (record (ListenerCallback (user_of_session s)) w).

Inductive Step : Type :=
| Mount
| Unmount
| Resolve (data : option SessionData)   (* a pending getSession resolves *)
| Push (s : option Session).            (* the remote pushes a session change *)

Definition step (st : Step) (w : World) : World :=
  match st with
  | Mount => match phase w with Rendered => effect w | _ => w end
  | Unmount => match phase w with Mounted => cleanup w | _ => w end
  | Resolve data =>
      match pending w with
      | S n =>
          then_callback data
            (MkWorld (user w) (phase w) n (held w) (subscribers w) (next_handle w) (log w))
      | O => w
      end
  | Push s =>
      match held w with
      | Some h => if bool_decide (h ∈ subscribers w) then listener_callback s w else w
      | None => w
      end
  end.

Definition run (sts : list Step) (w : World) : World :=
  foldl (λ w st, step st w) w sts.

(** What the remote does on its own. *)
Definition remote_step (st : Step) : bool :=
  match st with
  | Resolve _ | Push _ => true
  | Mount | Unmount => false
  end.

Definition listener_calls (evs : list Event) : list Value :=
  omap (λ ev, match ev with ListenerCallback v => Some v | _ => None end) evs.

Definition session_queries (evs : list Event) : nat :=
  length (omap (λ ev, match ev with GetSession => Some tt | _ => None end) evs).

(** The provider is mounted and its listener is registered. *)
Definition listening (w : World) : Prop :=
  phase w = Mounted ∧ ∃ h, held w = Some h ∧ h ∈ subscribers w.

(** The provider has been torn down and its listener is not registered. *)
Definition torn_down (w : World) : Prop :=
  phase w = Unmounted ∧ ∀ h, held w = Some h → h ∉ subscribers w.

(** The events a step or a run added. *)
Definition new_log (w w' : World) : list Event := drop (length (log w)) (log w').

(** *** The context *)

(** What lies above a caller in the component tree, nearest first. *)
Inductive Node : Type :=
| Provider (value : Value)   (* an [AuthContext.Provider] *)
| Element.                   (* any other component *)

(** [createContext(null)]: the default value. *)
Definition AuthContext : Value := Null.

(** [useContext]: the value of the nearest provider, or the default. *)
Fixpoint useContext (default : Value) (above : list Node) : Value :=
  match above with
  | [] => default
  | Provider v :: _ => v
  | Element :: above' => useContext default above'
  end.

(** [<AuthContext.Provider value={{ user }}>] *)
Definition AuthProvider (w : World) : Node :=
  Provider (Object [("user", user w)]).

Definition useAuth (above : list Node) : Value := useContext AuthContext above.

(** The value of the most recent [setUser] among the events. *)
Definition last_callback (evs : list Event) : option Value :=
  last (omap (λ ev, match ev with
                    | ThenCallback v | ListenerCallback v => Some v
                    | _ => None
                    end) evs).

Definition then_calls (evs : list Event) : nat :=
  length (omap (λ ev, match ev with ThenCallback v => Some v | _ => None end) evs).

(** The session queries are accounted for: each one sent has either been
    answered by one callback or is still awaited; before the effect none
    has been sent, afterwards exactly one. *)
Definition accounted (w : World) : Prop :=
  then_calls (log w) + pending w = session_queries (log w) ∧
  match phase w with
  | Rendered => log w = [] ∧ held w = None
  | _ => session_queries (log w) = 1
  end.

Definition alice : Session := MkSession (Some "alice").

End Auth.

Section HookFacts.
Context {R : Type} {client : Client R}.
Implicit Types (w : World R) (c : Coll) (s : Store).

(** [fetchData] never throws, and does what [refreshed] says. *)
Lemma fetchData_refreshed w : fetchData w = (Normal tt, refreshed w).
Proof.
  destruct w as [s r clk tr].
  unfold fetchData, refreshed, try_finally, try_catch, mbind, Prog_bind, bind,
    supabase_select, await, setLoading, setCategories, setPanchayaths,
    setAnnouncements, setPhotoGallery, setRegistrations, setNotifications,
    setColl, throw_if, throw, ret, console_error, toast, emit, with_store.
  cbn [store remote clock trace answers all_colls remote_after sent run_query query].
  repeat
    (match goal with
     | |- context [exec_select ?t ?f ?o ?r] =>
         let E := fresh "E" in
         destruct (exec_select t f o r) as [[[? [?|]]|?] ?] eqn:E
     end;
     repeat (cbn [error data failure payload assign events sent remote_after run_query
                  query fst snd store remote clock trace];
             match goal with
             | H : exec_select _ _ _ _ = _ |- _ => rewrite H
             end);
     cbn [error data failure payload assign events sent remote_after run_query
          query fst snd store remote clock trace];
     try (rewrite <- ?app_assoc; reflexivity)).
Qed.

Lemma answers_all (r : R) :
  answers all_colls r =
  [answer Categories r; answer Panchayaths r; answer Announcements r;
   answer PhotoGallery r; answer Registrations r; answer Notifications r].
Proof.
  unfold answer, all_colls.
  cbn [answers remote_after take coll_index].
  repeat match goal with
         | |- context [run_query ?c ?r] =>
             is_var r; destruct (run_query c r) as [? ?]; cbn [fst snd]
         end.
  reflexivity.
Qed.

Lemma new_events_app w w' evs : trace w' = trace w ++ evs → new_events w w' = evs.
Proof. intros E. unfold new_events. rewrite E. apply drop_app_length. Qed.

Lemma new_events_refreshed w :
  new_events w (refreshed w) =
  ESetLoading true :: events all_colls (answers all_colls (remote w)) ++ [ESetLoading false].
Proof. by apply new_events_app. Qed.

Lemma loading_refreshed w : loading (store (refreshed w)) = false.
Proof. reflexivity. Qed.

(** A refresh assigns nothing but what [assign] says, whatever happens. *)
Lemma store_refreshed w :
  store (refreshed w) =
  set_loading false
    (assign all_colls (answers all_colls (remote w)) (set_loading true (store w))).
Proof. reflexivity. Qed.

(** *** The mutators, one by one *)

Ltac run_mutator :=
  unfold try_catch, mbind, Prog_bind, bind, mret, Prog_ret, throw_if, throw, ret,
    supabase_insert_single, supabase_update, supabase_delete, await, toast,
    console_error, Date_now_toISOString, mutated, write_failure, written,
    add_events, emit;
  cbn [perform_request write_request failure_report success_toast
       store remote clock trace fst snd];
  match goal with
  | |- context [exec_insert_single ?t ?x ?r] =>
      destruct (exec_insert_single t x r) as [[[? [?|]]|?] ?]
  | |- context [exec_update ?t ?p ?f ?r] =>
      destruct (exec_update t p f r) as [[[? [?|]]|?] ?]
  | |- context [exec_delete ?t ?f ?r] =>
      destruct (exec_delete t f r) as [[[? [?|]]|?] ?]
  end;
  cbn [error data failure payload fst snd store remote clock trace];
  rewrite ?fetchData_refreshed; cbn [store remote clock trace];
  rewrite <- ?app_assoc; reflexivity.

Lemma createRegistration_mutated d w :
  createRegistration d w = (Normal (created d w), mutated (CreateRegistration d) w).
Proof. unfold createRegistration, created. run_mutator. Qed.

Lemma updateRegistrationStatus_mutated id st u w :
  updateRegistrationStatus id st u w =
  (Normal (bool_decide (write_failure (UpdateRegistrationStatus id st u) w = None)),
   mutated (UpdateRegistrationStatus id st u) w).
Proof. unfold updateRegistrationStatus. run_mutator. Qed.

Lemma deleteRegistration_mutated id w :
  deleteRegistration id w =
  (Normal (bool_decide (write_failure (DeleteRegistration id) w = None)),
   mutated (DeleteRegistration id) w).
Proof. unfold deleteRegistration. run_mutator. Qed.

Lemma updateCategoryImage_mutated n url w :
  updateCategoryImage n url w =
  (Normal (bool_decide (write_failure (UpdateCategoryImage n url) w = None)),
   mutated (UpdateCategoryImage n url) w).
Proof. unfold updateCategoryImage. run_mutator. Qed.

Lemma updateCategoryFees_mutated n a o h w :
  updateCategoryFees n a o h w =
  (Normal (bool_decide (write_failure (UpdateCategoryFees n a o h) w = None)),
   mutated (UpdateCategoryFees n a o h) w).
Proof. unfold updateCategoryFees. run_mutator. Qed.

Lemma call_mutated m w : snd (call m w) = mutated m w.
Proof.
  destruct m; cbn [call]; unfold returning.
  - by rewrite createRegistration_mutated.
  - by rewrite updateRegistrationStatus_mutated.
  - by rewrite deleteRegistration_mutated.
  - by rewrite updateCategoryImage_mutated.
  - by rewrite updateCategoryFees_mutated.
Qed.

Lemma call_boolean m w :
  boolean m = true →
  fst (call m w) = Normal (RetBool (bool_decide (write_failure m w = None))).
Proof.
  destruct m; cbn [call boolean]; unfold returning; [discriminate|..]; intros _.
  - by rewrite updateRegistrationStatus_mutated.
  - by rewrite deleteRegistration_mutated.
  - by rewrite updateCategoryImage_mutated.
  - by rewrite updateCategoryFees_mutated.
Qed.

Lemma requests_app (l1 l2 : list Event) : requests (l1 ++ l2) = requests l1 ++ requests l2.
Proof. apply omap_app. Qed.

Lemma assigned_colls_app (l1 l2 : list Event) :
  assigned_colls (l1 ++ l2) = assigned_colls l1 ++ assigned_colls l2.
Proof. apply omap_app. Qed.

Lemma requests_events cs ans : requests (events cs ans) = request_of <$> sent cs ans.
Proof.
  revert ans. induction cs as [|c cs IH]; intros [|res ans]; try reflexivity.
  cbn [events sent]. destruct (failure res); cbn; [reflexivity|].
  f_equal. apply IH.
Qed.

Lemma request_of_select c : is_select (request_of c) = true.
Proof. by destruct c. Qed.

Lemma failure_report_quiet m e :
  requests (failure_report m e) = [] ∧ assigned_colls (failure_report m e) = [].
Proof. by destruct m. Qed.

Lemma write_request_not_select m now : is_select (write_request m now) = false.
Proof. by destruct m. Qed.

(** The events of a mutator: its write, then the toast and a refresh, or
    the report of the failure. *)
Lemma new_events_mutated m w :
  new_events w (mutated m w) =
  ERequest (write_request m (clock w)) ::
  match write_failure m w with
  | None =>
      EToast (success_toast m) ::
      new_events (emit (EToast (success_toast m)) (written m w))
                 (refreshed (emit (EToast (success_toast m)) (written m w)))
  | Some e => failure_report m e
  end.
Proof.
  unfold mutated. destruct (write_failure m w) as [e|].
  - apply new_events_app. cbn. by rewrite <- app_assoc.
  - rewrite new_events_refreshed. apply new_events_app. cbn.
    by rewrite <- !app_assoc.
Qed.

Lemma store_written m w : store (written m w) = store w.
Proof. reflexivity. Qed.

Lemma store_mutated_failure m w e :
  write_failure m w = Some e → store (mutated m w) = store w.
Proof. unfold mutated. by intros ->. Qed.

Lemma valid_audience_spec (notif : Obj) :
  valid_audience notif = true ↔ audience_in_set notif.
Proof.
  unfold valid_audience, audience_in_set, prop, includes.
  destruct (notif !! "target_audience") as [[| | |a]|]; split;
    try discriminate; try (intros (? & ? & ?); discriminate).
  - intros H. exists a. split; [done|]. by apply bool_decide_eq_true in H.
  - intros (a' & [= <-] & Ha). by apply bool_decide_eq_true.
Qed.

Lemma selects_only (cs : list Coll) :
  filter (λ rq, is_select rq = false) (request_of <$> cs) = [].
Proof.
  induction cs as [|c cs IH]; [reflexivity|].
  cbn [fmap list_fmap]. rewrite filter_cons_False; [apply IH|].
  rewrite request_of_select. discriminate.
Qed.

Lemma requests_refreshed w :
  requests (new_events w (refreshed w)) =
  request_of <$> sent all_colls (answers all_colls (remote w)).
Proof.
  rewrite new_events_refreshed.
  change (ESetLoading true :: ?l) with ([ESetLoading true] ++ l).
  rewrite !requests_app, requests_events. cbn [requests omap]. cbn.
  by rewrite app_nil_r.
Qed.

(** The requests of a mutator: its write, followed by the queries of the
    refresh when the write succeeded. *)
Lemma requests_mutated m w :
  requests (new_events w (mutated m w)) =
  write_request m (clock w) ::
  match write_failure m w with
  | None =>
      request_of <$>
        sent all_colls (answers all_colls (remote (written m w)))
  | Some _ => []
  end.
Proof.
  rewrite new_events_mutated.
  change (ERequest ?rq :: ?l) with ([ERequest rq] ++ l).
  rewrite requests_app. cbn [requests omap app]. f_equal.
  destruct (write_failure m w) as [e|].
  - apply failure_report_quiet.
  - change (EToast ?t :: ?l) with ([EToast t] ++ l).
    rewrite requests_app, requests_refreshed. reflexivity.
Qed.

(** A mutator sends one write. *)
Lemma writes_mutated m w :
  filter (λ rq, is_select rq = false) (requests (new_events w (mutated m w))) =
  [write_request m (clock w)].
Proof.
  rewrite requests_mutated, filter_cons_True by apply write_request_not_select.
  f_equal. destruct (write_failure m w); [reflexivity|apply selects_only].
Qed.

(** *** The notifications the hook exposes *)

Lemma all_valid_assign cs ans s : all_valid s → all_valid (assign cs ans s).
Proof.
  revert ans s. induction cs as [|c cs IH]; intros [|res ans] s Hs; try assumption.
  cbn [assign]. destruct (failure res); [assumption|].
  apply IH. destruct c; try assumption.
  unfold all_valid. cbn [set_coll notifications stored].
  apply Forall_forall. intros notif Hin. by apply list_elem_of_filter in Hin as [? _].
Qed.

Lemma all_valid_refreshed w : all_valid (store w) → all_valid (store (refreshed w)).
Proof. intros Hs. rewrite store_refreshed. by apply (all_valid_assign _ _ (set_loading true (store w))). Qed.

Lemma all_valid_mutated m w : all_valid (store w) → all_valid (store (mutated m w)).
Proof.
  intros Hs. unfold mutated. destruct (write_failure m w); [assumption|].
  by apply all_valid_refreshed.
Qed.

Lemma all_valid_perform (c : Call) w : all_valid (store w) → all_valid (store (perform c w)).
Proof.
  destruct c as [|m|now]; cbn [perform]; intros Hs.
  - rewrite fetchData_refreshed. by apply all_valid_refreshed.
  - rewrite call_mutated. by apply all_valid_mutated.
  - assumption.
Qed.

Lemma all_valid_perform_all (cs : list Call) w :
  all_valid (store w) → all_valid (store (perform_all cs w)).
Proof.
  revert w. induction cs as [|c cs IH]; intros w Hs; [assumption|].
  apply IH. by apply all_valid_perform.
Qed.

End HookFacts.

(** * Properties of one call *)

Section Refresh.
Context {R : Type} {client : Client R}.
Implicit Types (w : World R) (c k : Coll).

Local Ltac use_answers H :=
  pose proof (H Categories) as H0; pose proof (H Panchayaths) as H1;
  pose proof (H Announcements) as H2; pose proof (H PhotoGallery) as H3;
  pose proof (H Registrations) as H4; pose proof (H Notifications) as H5.

(** C1, as amended. When the six queries of one [fetchData] all succeed,
    the call sends exactly the six queries of the source, in order
    (categories by name ascending, panchayaths by malayalam_name
    ascending, the announcements with is_active = true by created_at
    descending, photo gallery by uploaded_at descending, registrations by
    submitted_at descending, notifications by created_at descending),
    assigns each collection once, and leaves categories, panchayaths,
    announcements, photo gallery and registrations equal to the rows of
    their replies, in the replies' order; the notifications are the rows
    of their reply without the records whose target_audience is not one
    of all, category, panchayath, admin. *)
Theorem fetchData_all_succeed w :
  (∀ c, failure (answer c (remote w)) = None) →
  let w' := snd (fetchData w) in
  fst (fetchData w) = Normal tt ∧
  requests (new_events w w') =
    [RSelect "categories" [] (MkOrder "name" true);
     RSelect "panchayaths" [] (MkOrder "malayalam_name" true);
     RSelect "announcements" [FEq "is_active" (VBool true)] (MkOrder "created_at" false);
     RSelect "photo_gallery" [] (MkOrder "uploaded_at" false);
     RSelect "registrations" [] (MkOrder "submitted_at" false);
     RSelect "push_notifications" [] (MkOrder "created_at" false)] ∧
  assigned_colls (new_events w w') = all_colls ∧
  categories (store w') = rows_of (answer Categories (remote w)) ∧
  panchayaths (store w') = rows_of (answer Panchayaths (remote w)) ∧
  announcements (store w') = rows_of (answer Announcements (remote w)) ∧
  photoGallery (store w') = rows_of (answer PhotoGallery (remote w)) ∧
  registrations (store w') = rows_of (answer Registrations (remote w)) ∧
  notifications (store w') =
    filter (λ notif, valid_audience notif = true) (rows_of (answer Notifications (remote w))).
Proof.
  intros H. cbn zeta. rewrite fetchData_refreshed. cbn [fst snd].
  rewrite new_events_refreshed, store_refreshed, answers_all.
  use_answers H.
  cbn [all_colls events assign]. rewrite H0, H1, H2, H3, H4, H5.
  repeat split.
Qed.

(** C2. Whatever the remote answers, [fetchData] returns normally with
    the loading flag false. If the query of collection [k] is the first
    to fail, the queries before it and its own have been sent and no
    later one, exactly the collections before [k] have been assigned,
    each holds the rows just fetched for it, and [k] and the collections
    after it hold what they held before the call. *)
Theorem fetchData_first_failure w :
  let w' := snd (fetchData w) in
  fst (fetchData w) = Normal tt ∧
  loading (store w') = false ∧
  ∀ k,
    (∀ c, coll_index c < coll_index k → failure (answer c (remote w)) = None) →
    is_Some (failure (answer k (remote w))) →
    requests (new_events w w') = request_of <$> take (S (coll_index k)) all_colls ∧
    assigned_colls (new_events w w') = take (coll_index k) all_colls ∧
    (∀ c, coll_index c < coll_index k →
          get_coll c (store w') = rows_of (answer c (remote w))) ∧
    (∀ c, (coll_index k ≤ coll_index c)%nat → get_coll c (store w') = get_coll c (store w)).
Proof.
  cbn zeta. rewrite fetchData_refreshed. cbn [fst snd].
  split; [reflexivity|]. split; [reflexivity|].
  intros k H [e He].
  rewrite new_events_refreshed, store_refreshed, answers_all.
  use_answers H.
  destruct k; cbn [coll_index] in *;
    cbn [all_colls events assign];
    try rewrite H0 by lia; try rewrite H1 by lia; try rewrite H2 by lia;
    try rewrite H3 by lia; try rewrite H4 by lia; rewrite He;
    (split; [reflexivity|]); (split; [reflexivity|]);
    split; intros c Hc; destruct c; cbn [coll_index] in Hc; try lia; reflexivity.
Qed.

End Refresh.

Section Mutators.
Context {R : Type} {client : Client R}.
Implicit Types (w : World R) (m : Mutation).


(** C4, as amended. [updateRegistrationStatus] sends exactly one write,
    an update of [registrations] filtered on [id] equal to the given id.
    Its patch sets [status] to the given status and [approved_at] to the
    time of the call; it sets [unique_id] to [uniqueId] when [uniqueId]
    is given and is not the empty string, and has no other property. An
    update with this filter leaves every row with another [id] as it
    is. *)
Theorem updateRegistrationStatus_update (id : string) (status : Status)
    (uniqueId : option string) w :
  let w' := snd (updateRegistrationStatus id status uniqueId w) in
  let patch := updateData status (clock w) uniqueId in
  filter (λ rq, is_select rq = false) (requests (new_events w w')) =
    [RUpdate "registrations" patch [FEq "id" (VStr id)]] ∧
  patch !! "status" = Some (VStr (status_str status)) ∧
  patch !! "approved_at" = Some (VStr (clock w)) ∧
  patch !! "unique_id" =
    match uniqueId with
    | Some u => if decide (u = "") then None else Some (VStr u)
    | None => None
    end ∧
  (∀ key, is_Some (patch !! key) → key ∈ ["status"; "approved_at"; "unique_id"]) ∧
  (∀ (rows : list Obj) (i : nat) (row : Obj),
      rows !! i = Some row → row !! "id" ≠ Some (VStr id) →
      update_rows patch [FEq "id" (VStr id)] rows !! i = Some row).
Proof.
  cbn zeta. rewrite updateRegistrationStatus_mutated. cbn [snd].
  rewrite writes_mutated. cbn [write_request].
  split; [reflexivity|].
  assert (Hu : ∀ u : string, negb (String.eqb u "") = if decide (u = "") then false else true).
  { intros u. destruct (decide (u = "")) as [->|Hne]; [reflexivity|].
    apply negb_true_iff, String.eqb_neq, Hne. }
  unfold updateData, truthy.
  split; [|split; [|split; [|split]]].
  - destruct uniqueId as [u|]; [rewrite Hu; destruct (decide (u = ""))|]; by simplify_map_eq.
  - destruct uniqueId as [u|]; [rewrite Hu; destruct (decide (u = ""))|]; by simplify_map_eq.
  - destruct uniqueId as [u|]; [rewrite Hu; destruct (decide (u = ""))|]; by simplify_map_eq.
  - intros key [v Hv].
    destruct (decide (key = "status")) as [->|]; [set_solver|].
    destruct (decide (key = "approved_at")) as [->|]; [set_solver|].
    destruct (decide (key = "unique_id")) as [->|]; [set_solver|].
    destruct uniqueId as [u|]; [rewrite Hu in Hv; destruct (decide (u = ""))|];
      by simplify_map_eq.
  - intros rows i row Hi Hid. unfold update_rows.
    rewrite list_lookup_fmap, Hi. cbn. unfold matches, matches1. cbn.
    by rewrite bool_decide_eq_false_2.
Qed.

(** C5. From the first render on, whatever the client of the hook calls
    (refreshes, mutators) and whatever the remote answers, every record
    of the exposed notifications has its target_audience among all,
    category, panchayath and admin; so after any refresh a record
    outside that set is not in the collection, even when the remote
    returned it. *)
Theorem notifications_in_audience (r : R) (now : string) (cs : list Call) :
  let w := perform_all cs (rendered r now) in
  (∀ notif, notif ∈ notifications (store w) → audience_in_set notif) ∧
  (∀ notif, ¬ audience_in_set notif →
            notif ∉ notifications (store (snd (fetchData w)))).
Proof.
  cbn zeta.
  assert (Hinv : ∀ cs', all_valid (store (perform_all cs' (rendered r now)))).
  { intros cs'. apply all_valid_perform_all. constructor. }
  split.
  - intros notif Hin. apply valid_audience_spec.
    by apply (proj1 (Forall_forall _ _) (Hinv cs)).
  - intros notif Hn Hin. apply Hn, valid_audience_spec.
    pose proof (all_valid_perform Refresh _ (Hinv cs)) as Hr.
    by apply (proj1 (Forall_forall _ _) Hr).
Qed.

(** C6. Each of [updateRegistrationStatus], [deleteRegistration],
    [updateCategoryImage] and [updateCategoryFees] returns normally, with
    [true] exactly when its write succeeds and [false] exactly when it
    fails. It sends one write. After a successful write it shows its
    toast and runs [fetchData]; after a failed one it sends nothing
    more, assigns nothing and leaves the store as it was. *)
Theorem boolean_mutator_returns m w :
  boolean m = true →
  let w' := snd (call m w) in
  (∃ b, fst (call m w) = Normal (RetBool b) ∧
        (b = true ↔ write_failure m w = None) ∧
        (b = false ↔ is_Some (write_failure m w))) ∧
  filter (λ rq, is_select rq = false) (requests (new_events w w')) =
    [write_request m (clock w)] ∧
  (write_failure m w = None →
     w' = snd (fetchData (emit (EToast (success_toast m)) (written m w)))) ∧
  (is_Some (write_failure m w) →
     requests (new_events w w') = [write_request m (clock w)] ∧
     assigned_colls (new_events w w') = [] ∧
     store w' = store w).
Proof.
  intros Hb. cbn zeta. rewrite call_mutated, (call_boolean _ _ Hb), writes_mutated.
  split; [|split; [reflexivity|split]].
  - eexists. split; [reflexivity|].
    destruct (write_failure m w) as [e|].
    + rewrite bool_decide_eq_false_2 by discriminate.
      split; split; try discriminate; eauto.
    + rewrite bool_decide_eq_true_2 by reflexivity.
      split; split; try discriminate; try reflexivity. by intros [? ?].
  - intros Hok. unfold mutated. by rewrite Hok, fetchData_refreshed.
  - intros [e He]. rewrite requests_mutated, new_events_mutated, He.
    split; [reflexivity|]. split; [apply failure_report_quiet|].
    by apply store_mutated_failure with e.
Qed.

(** C7. For each of the five mutators: while the write is on its way and
    when it has been answered the store is what it was before the call;
    a failed write ends the call, with no assignment; after a successful
    write the only thing that touches the collections is the [fetchData]
    the mutator then runs, from a world whose store is still the one
    before the call. *)
Theorem mutator_assigns_nothing m w :
  let w' := snd (call m w) in
  let w1 := emit (EToast (success_toast m)) (written m w) in
  store w1 = store w ∧
  new_events w w1 = [ERequest (write_request m (clock w)); EToast (success_toast m)] ∧
  (write_failure m w = None →
     w' = snd (fetchData w1) ∧
     new_events w w' = new_events w w1 ++ new_events w1 w') ∧
  (is_Some (write_failure m w) →
     store w' = store w ∧ assigned_colls (new_events w w') = []).
Proof.
  cbn zeta. rewrite call_mutated.
  split; [reflexivity|]. split; [|split].
  - apply new_events_app. cbn. by rewrite <- app_assoc.
  - intros Hok. rewrite new_events_mutated, Hok. unfold mutated. rewrite Hok.
    rewrite fetchData_refreshed. split; [reflexivity|].
    rewrite (new_events_app w (emit _ (written m w))
               [ERequest (write_request m (clock w)); EToast (success_toast m)]);
      [reflexivity|].
    cbn. by rewrite <- app_assoc.
  - intros [e He]. rewrite new_events_mutated, He.
    split; [by apply store_mutated_failure with e|apply failure_report_quiet].
Qed.

End Mutators.

Module AuthFacts.
Import Auth.
Implicit Types (w : Auth.World) (st : Step).

Lemma run_cons st sts w : run (st :: sts) w = run sts (step st w).
Proof. reflexivity. Qed.

Lemma listening_effect w : phase w = Rendered → listening (step Mount w).
Proof.
  intros Hp. cbn [step]. rewrite Hp. unfold effect, listening. cbn.
  split; [reflexivity|]. eexists. split; [reflexivity|]. apply list_elem_of_here.
Qed.

Lemma listening_remote_step st w :
  remote_step st = true → listening w → listening (step st w).
Proof.
  intros Hst (Hp & h & Hh & Hin). destruct st as [| |data|s]; try discriminate.
  - cbn [step]. destruct (pending w); [by split; eauto|].
    unfold then_callback, setUser, record. cbn. rewrite Hp. cbn.
    split; [done|]. by exists h.
  - cbn [step]. rewrite Hh, bool_decide_eq_true_2 by done.
    unfold listener_callback, setUser, record. cbn. rewrite Hp. cbn.
    split; [done|]. by exists h.
Qed.

Lemma listening_run sts w :
  Forall (λ st, remote_step st = true) sts → listening w → listening (run sts w).
Proof.
  intros Hsts. revert w. induction Hsts as [|st sts Hst _ IH]; intros w Hw; [done|].
  rewrite run_cons. apply IH. by apply listening_remote_step.
Qed.

Lemma push_listening s w :
  listening w →
  user (step (Push s) w) = user_of_session s ∧
  log (step (Push s) w) = log w ++ [ListenerCallback (user_of_session s)] ∧
  pending (step (Push s) w) = pending w.
Proof.
  intros (Hp & h & Hh & Hin). cbn [step].
  rewrite Hh, bool_decide_eq_true_2 by done.
  unfold listener_callback, setUser, record. cbn. by rewrite Hp.
Qed.

Lemma pending_pushes (pushes : list (option Session)) w :
  listening w → pending (run (Push <$> pushes) w) = pending w.
Proof.
  revert w. induction pushes as [|s pushes IH]; intros w Hw; [done|].
  rewrite fmap_cons, run_cons, IH.
  - by apply push_listening.
  - by apply listening_remote_step.
Qed.

Lemma resolve_listening data w :
  listening w → pending w ≠ 0 →
  user (step (Resolve data) w) = user_of_data data.
Proof.
  intros (Hp & _) Hpend. cbn [step]. destruct (pending w); [done|].
  unfold then_callback, setUser, record. cbn. by rewrite Hp.
Qed.

(** C8. The effect of a freshly rendered provider sends one
    get-current-session query and registers one listener. When that
    query resolves, also after some pushes, the user value becomes the
    user of the session it carries, or null when it carries none; and at
    every later push of a session change the user value becomes the user
    of the pushed session, or null when the event carries none. *)
Theorem session_user_follows_remote w :
  phase w = Rendered →
  let w1 := step Mount w in
  new_log w w1 = [GetSession; Subscribed (next_handle w)] ∧
  session_queries (new_log w w1) = 1 ∧
  (∀ (pushes : list (option Session)) (data : option SessionData),
      user (step (Resolve data) (run (Push <$> pushes) w1)) = user_of_data data) ∧
  (∀ (sts : list Step) (s : option Session),
      Forall (λ st, remote_step st = true) sts →
      user (step (Push s) (run sts w1)) = user_of_session s).
Proof.
  intros Hp. cbn zeta. pose proof (listening_effect w Hp) as Hl.
  assert (Hlog : new_log w (step Mount w) = [GetSession; Subscribed (next_handle w)]).
  { unfold new_log. cbn [step]. rewrite Hp. unfold effect. cbn.
    rewrite <- app_assoc. apply drop_app_length. }
  split; [done|]. split; [by rewrite Hlog|]. split.
  - intros pushes data. apply resolve_listening.
    + apply listening_run; [|done]. apply Forall_fmap. by apply Forall_true.
    + rewrite pending_pushes by done. cbn [step]. rewrite Hp. by cbn.
  - intros sts s Hsts. by apply push_listening, listening_run.
Qed.

Lemma torn_down_cleanup w : phase w = Mounted → torn_down (step Unmount w).
Proof.
  intros Hp. cbn [step]. rewrite Hp. unfold cleanup, torn_down.
  destruct (held w) as [h|] eqn:Hh; cbn; (split; [done|]); [|by rewrite Hh].
  rewrite Hh. intros ? [= <-] Hin. by apply list_elem_of_filter in Hin as [? _].
Qed.

Lemma torn_down_step st w :
  torn_down w →
  torn_down (step st w) ∧ user (step st w) = user w ∧
  listener_calls (log (step st w)) = listener_calls (log w).
Proof.
  intros Ht. pose proof Ht as [Hp Hh]. destruct st as [| |data|s]; cbn [step].
  - by rewrite Hp.
  - by rewrite Hp.
  - destruct (pending w); [done|].
    unfold then_callback, setUser, record, torn_down, listener_calls. cbn.
    rewrite Hp. cbn. rewrite omap_app. cbn. by rewrite app_nil_r.
  - destruct (held w) as [h|] eqn:Hheld; [|done].
    rewrite bool_decide_eq_false_2; [done|by apply Hh].
Qed.

Lemma torn_down_push s w : torn_down w → step (Push s) w = w.
Proof.
  intros [_ Hh]. cbn [step]. destruct (held w) as [h|]; [|done].
  rewrite bool_decide_eq_false_2; [done|by apply Hh].
Qed.

(** C9. The teardown of a mounted provider unsubscribes the listener
    the effect registered. From then on a pushed session change changes
    nothing at all, and whatever else happens, the listener is never
    called again and the user value stays what it was. *)
Theorem teardown_silences_listener w :
  phase w = Mounted →
  let w' := step Unmount w in
  phase w' = Unmounted ∧
  (∀ h, held w = Some h →
        new_log w w' = [Unsubscribed h] ∧ h ∉ subscribers w') ∧
  (∀ pushes : list (option Session), run (Push <$> pushes) w' = w') ∧
  (∀ sts : list Step,
      user (run sts w') = user w' ∧
      listener_calls (log (run sts w')) = listener_calls (log w')).
Proof.
  intros Hp. cbn zeta. pose proof (torn_down_cleanup w Hp) as Ht.
  split; [apply Ht|]. split; [|split].
  - intros h Hh. split; [|by apply Ht; cbn [step]; rewrite Hp; unfold cleanup; rewrite Hh].
    unfold new_log. cbn [step]. rewrite Hp. unfold cleanup. rewrite Hh. cbn.
    apply drop_app_length.
  - intros pushes. induction pushes as [|s pushes IH]; [done|].
    rewrite fmap_cons, run_cons, torn_down_push by done. apply IH.
  - intros sts. revert Ht. generalize (step Unmount w). clear.
    induction sts as [|st sts IH]; intros w Ht; [done|].
    rewrite run_cons. destruct (torn_down_step st w Ht) as (Ht' & Hu & Hl).
    destruct (IH _ Ht') as [-> ->]. done.
Qed.

(** C10, as amended. Under an [AuthProvider], with nothing but other
    components in between, [useAuth] returns the context object of that
    provider, whose one property [user] holds the provider's current
    user value; with no provider above the caller it returns null. *)
Theorem useAuth_returns_context (between rest : list Node) w :
  Forall (λ n, n = Element) between →
  useAuth (between ++ AuthProvider w :: rest) = Object [("user", user w)] ∧
  useAuth between = Null.
Proof.
  intros Hb. induction Hb as [|n between -> _ IH]; [done|].
  cbn. apply IH.
Qed.

End AuthFacts.

(** * The hook and the provider on concrete data *)

Section Examples.
Import Ref.

Local Ltac compute_eq := compute_done.

(** All six queries succeed on the sample data. *)
Lemma sample_succeeds (c : Coll) : failure (answer c (remote (fresh (sample [])))) = None.
Proof. destruct c; compute_eq. Qed.

(** Initial load, as in the scenario of the spec: three categories, two
    regions, no announcement. *)
Example initial_load :
  let w' := snd (fetchData (fresh (sample []))) in
  ((λ row : Obj, row !! "name") <$> categories (store w')) =
    [Some (VStr "farmelife"); Some (VStr "foodelife"); Some (VStr "pennyekart")] ∧
  ((λ row : Obj, row !! "malayalam_name") <$> panchayaths (store w')) =
    [Some (VStr "a"); Some (VStr "b")] ∧
  announcements (store w') = [] ∧
  loading (store w') = false.
Proof. repeat split; compute_eq. Qed.

Lemma fetchData_all_succeed_witness :
  let w := fresh (sample []) in
  (∀ c, failure (answer c (remote w)) = None) ∧
  notifications (store (snd (fetchData w))) =
    [notification "n3" "admin" "2025-01-03"; notification "n1" "all" "2025-01-01"].
Proof.
  cbn zeta. split; [exact sample_succeeds|].
  destruct (fetchData_all_succeed (fresh (sample [])) sample_succeeds)
    as (_ & _ & _ & _ & _ & _ & _ & _ & Hn).
  rewrite Hn. compute_eq.
Defined.

(** C1 as stated fails: the remote returns a notification addressed to
    "everyone"; all six queries succeed, and the notifications of the
    hook are not the rows of the reply. *)
Lemma notifications_not_exact_counterexample :
  let w := fresh (sample []) in
  (∀ c, failure (answer c (remote w)) = None) ∧
  rows_of (answer Notifications (remote w)) =
    [notification "n3" "admin" "2025-01-03"; notification "n2" "everyone" "2025-01-02";
     notification "n1" "all" "2025-01-01"] ∧
  notifications (store (snd (fetchData w))) ≠ rows_of (answer Notifications (remote w)).
Proof.
  cbn zeta. split; [exact sample_succeeds|]. split; compute_eq.
Qed.

Lemma fetchData_first_failure_witness :
  let w := fresh (sample [Up; Up; Refuses down]) in
  let w' := snd (fetchData w) in
  is_Some (failure (answer Announcements (remote w))) ∧
  assigned_colls (new_events w w') = [Categories; Panchayaths] ∧
  registrations (store w') = [] ∧
  loading (store w') = false.
Proof.
  cbn zeta.
  assert (Hlt : ∀ c, coll_index c < coll_index Announcements →
            failure (answer c (remote (fresh (sample [Up; Up; Refuses down])))) = None).
  { intros c Hc. destruct c; cbn in Hc; try lia; compute_eq. }
  assert (Hk : is_Some (failure (answer Announcements
                 (remote (fresh (sample [Up; Up; Refuses down])))))).
  { exists down. compute_eq. }
  destruct (fetchData_first_failure (fresh (sample [Up; Up; Refuses down])))
    as (_ & Hl & Hfail).
  destruct (Hfail Announcements Hlt Hk) as (_ & Ha & _ & Hkept).
  split; [exact Hk|]. split; [exact Ha|]. split; [|exact Hl].
  apply (Hkept Registrations). cbn. lia.
Defined.



(** A failing insert: [null] comes back, nothing is thrown. *)
Example createRegistration_failure :
  fst (createRegistration (applicant "Chinnu") (fresh (sample [Rejects down]))) = Normal None ∧
  fst (createRegistration (applicant "Chinnu") (fresh (sample [Refuses down]))) = Normal None.
Proof. split; compute_eq. Qed.

(** The example of the spec: approving r0 with the unique id U123. *)
Lemma updateRegistrationStatus_update_witness :
  let w := fresh (sample []) in
  let patch := updateData approved (clock w) (Some "U123") in
  patch = {[ "status" := VStr "approved";
             "approved_at" := VStr "2025-03-03T00:00:00.000Z";
             "unique_id" := VStr "U123" ]} ∧
  patch !! "unique_id" = Some (VStr "U123") ∧
  update_rows patch [FEq "id" (VStr "r0")] (rows "registrations" (sample [])) !! 1 =
    Some (registration "r1" "Binu" "pending").
Proof.
  cbn zeta.
  destruct (updateRegistrationStatus_update "r0" approved (Some "U123") (fresh (sample [])))
    as (_ & _ & _ & Hu & _ & Hothers).
  split; [compute_eq|]. split; [exact Hu|].
  apply Hothers; compute_eq.
Defined.

(** C4 as stated fails: the empty string is supplied as [uniqueId], and
    the one update that is sent sets [status] and [approved_at] only. *)
Lemma empty_uniqueId_counterexample :
  let w := fresh (sample []) in
  let w' := snd (updateRegistrationStatus "r0" approved (Some "") w) in
  requests (new_events w w') !! 0 =
    Some (RUpdate "registrations"
            {[ "status" := VStr "approved";
               "approved_at" := VStr "2025-03-03T00:00:00.000Z" ]}
            [FEq "id" (VStr "r0")]) ∧
  updateData approved (clock w) (Some "") !! "unique_id" ≠ Some (VStr "").
Proof. split; compute_eq. Qed.

Lemma notifications_in_audience_witness :
  let w := perform_all session (rendered (sample []) "2025-03-03T00:00:00.000Z") in
  notification "n3" "admin" "2025-01-03" ∈ notifications (store w) ∧
  audience_in_set (notification "n3" "admin" "2025-01-03") ∧
  ¬ audience_in_set (notification "n2" "everyone" "2025-01-02") ∧
  notification "n2" "everyone" "2025-01-02" ∉ notifications (store (snd (fetchData w))).
Proof.
  cbn zeta.
  destruct (notifications_in_audience (sample []) "2025-03-03T00:00:00.000Z" session)
    as [Hin Hout].
  assert (Hn3 : notification "n3" "admin" "2025-01-03" ∈
            notifications (store (perform_all session
              (rendered (sample []) "2025-03-03T00:00:00.000Z")))) by compute_eq.
  assert (Hn2 : ¬ audience_in_set (notification "n2" "everyone" "2025-01-02")).
  { intros H. apply valid_audience_spec in H. revert H. compute_eq. }
  split; [exact Hn3|]. split; [exact (Hin _ Hn3)|]. split; [exact Hn2|].
  exact (Hout _ Hn2).
Defined.

Lemma boolean_mutator_returns_witness :
  let w := fresh (sample [Refuses down]) in
  let m := DeleteRegistration "r0" in
  is_Some (write_failure m w) ∧
  fst (call m w) = Normal (RetBool false) ∧
  requests (new_events w (snd (call m w))) = [RDelete "registrations" [FEq "id" (VStr "r0")]] ∧
  store (snd (call m w)) = store w.
Proof.
  cbn zeta.
  assert (Hf : is_Some (write_failure (DeleteRegistration "r0") (fresh (sample [Refuses down]))))
    by compute_eq.
  destruct (boolean_mutator_returns (DeleteRegistration "r0") (fresh (sample [Refuses down]))
              eq_refl) as ((b & Hb & _ & Hfalse) & _ & _ & Hfail).
  destruct (Hfail Hf) as (Hrq & _ & Hst).
  split; [exact Hf|]. split; [|split; [exact Hrq|exact Hst]].
  rewrite Hb. by rewrite (proj2 Hfalse Hf).
Defined.

(** The same mutators when the write succeeds: [true], and a refresh. *)
Example boolean_mutators_succeed :
  let w := fresh (sample []) in
  fst (updateRegistrationStatus "r0" rejected None w) = Normal true ∧
  fst (deleteRegistration "r0" w) = Normal true ∧
  fst (updateCategoryImage "farmelife" "https://img/1.png" w) = Normal true ∧
  fst (updateCategoryFees "farmelife" 100 80 true w) = Normal true ∧
  ((λ row : Obj, row !! "id") <$> registrations (store (snd (deleteRegistration "r0" w)))) =
    [Some (VStr "r1")] ∧
  length (requests (trace (snd (deleteRegistration "r0" w)))) = 7.
Proof. repeat split; compute_eq. Qed.

Lemma mutator_assigns_nothing_witness :
  let w := fresh (sample [Rejects down]) in
  let m := CreateRegistration (applicant "Chinnu") in
  is_Some (write_failure m w) ∧
  store (snd (call m w)) = store w ∧
  assigned_colls (new_events w (snd (call m w))) = [].
Proof.
  cbn zeta.
  assert (Hf : is_Some (write_failure (CreateRegistration (applicant "Chinnu"))
                          (fresh (sample [Rejects down])))) by compute_eq.
  destruct (mutator_assigns_nothing (CreateRegistration (applicant "Chinnu"))
              (fresh (sample [Rejects down]))) as (_ & _ & _ & Hfail).
  split; [exact Hf|]. exact (Hfail Hf).
Defined.

End Examples.

Module AuthExamples.
Import Auth AuthFacts.

(** The scenario of the spec: the provider mounts while alice has a
    session, and the user value becomes alice without any push; a later
    push that carries no session sets it to null. *)
Lemma session_user_follows_remote_witness :
  let w1 := step Mount initial in
  phase initial = Rendered ∧
  user (step (Resolve (Some (MkData (Some alice)))) w1) = UserV "alice" ∧
  user (step (Push None) (run [Resolve (Some (MkData (Some alice)))] w1)) = Null.
Proof.
  cbn zeta.
  destruct (session_user_follows_remote initial eq_refl) as (_ & _ & Hres & Hpush).
  split; [reflexivity|]. split.
  - exact (Hres [] (Some (MkData (Some alice)))).
  - apply (Hpush [Resolve (Some (MkData (Some alice)))] None).
    repeat constructor.
Defined.

Lemma teardown_silences_listener_witness :
  let w := step Mount initial in
  let w' := step Unmount w in
  phase w = Mounted ∧
  (0 ∉ subscribers w') ∧
  run [Push (Some alice); Push None] w' = w' ∧
  listener_calls (log (run [Push (Some alice); Resolve None; Push None] w')) = [].
Proof.
  cbn zeta.
  destruct (teardown_silences_listener (step Mount initial) eq_refl)
    as (_ & Hunsub & Hpushes & Hany).
  split; [reflexivity|]. split; [|split].
  - exact (proj2 (Hunsub 0 eq_refl)).
  - exact (Hpushes [Some alice; None]).
  - exact (proj2 (Hany [Push (Some alice); Resolve None; Push None])).
Defined.

Lemma useAuth_returns_context_witness :
  let w := step (Resolve (Some (MkData (Some alice)))) (step Mount initial) in
  useAuth [Element; Element; AuthProvider w; Element] = Object [("user", UserV "alice")] ∧
  useAuth [Element; Element] = Null.
Proof.
  cbn zeta.
  apply (useAuth_returns_context [Element; Element] [Element]
           (step (Resolve (Some (MkData (Some alice)))) (step Mount initial))).
  repeat constructor.
Defined.

(** The resolution of the session query is not cancelled by the teardown:
    its callback still runs afterwards; the user value of the torn-down
    provider is not changed by it. *)
Example late_resolution :
  let w' := step Unmount (step Mount initial) in
  new_log w' (step (Resolve (Some (MkData (Some alice)))) w') = [ThenCallback (UserV "alice")] ∧
  user (step (Resolve (Some (MkData (Some alice)))) w') = Null.
Proof. split; reflexivity. Qed.

(** C10 as stated fails: under a provider, whether alice is signed in or
    nobody is, [useAuth] does not return the user value; it returns the
    object that holds it. In particular it does not return null under a
    provider without a user. *)
Lemma useAuth_not_user_counterexample :
  let w := step (Resolve (Some (MkData (Some alice)))) (step Mount initial) in
  user w = UserV "alice" ∧
  useAuth [AuthProvider w] ≠ user w ∧
  user initial = Null ∧
  useAuth [AuthProvider initial] ≠ user initial.
Proof. cbn zeta. repeat split; discriminate. Qed.

End AuthExamples.

(** * More about [fetchData] and the mutators *)

Section Reports.
Context {R : Type} {client : Client R}.
Implicit Types (w : World R) (m : Mutation) (c : Coll) (r : R).

Lemma toasts_app (l1 l2 : list Event) : toasts (l1 ++ l2) = toasts l1 ++ toasts l2.
Proof. apply omap_app. Qed.

Lemma console_errors_app (l1 l2 : list Event) :
  console_errors (l1 ++ l2) = console_errors l1 ++ console_errors l2.
Proof. apply omap_app. Qed.

Lemma loading_changes_app (l1 l2 : list Event) :
  loading_changes (l1 ++ l2) = loading_changes l1 ++ loading_changes l2.
Proof. apply omap_app. Qed.

Lemma answers_cons c cs r :
  answers (c :: cs) r = fst (run_query c r) :: answers cs (snd (run_query c r)).
Proof. cbn [answers]. by destruct (run_query c r). Qed.

(** The body of a refresh reports the first failure, once. *)
Lemma events_reports cs r :
  toasts (events cs (answers cs r)) =
    match first_failure (answers cs r) with Some _ => [load_failed] | None => [] end ∧
  console_errors (events cs (answers cs r)) =
    match first_failure (answers cs r) with
    | Some e => [("Error fetching data:", e)]
    | None => []
    end ∧
  loading_changes (events cs (answers cs r)) = [].
Proof.
  revert r. induction cs as [|c cs IH]; intros r; [done|].
  rewrite answers_cons. cbn [events first_failure].
  destruct (failure (run_query c r).1) as [e|]; [done|].
  apply (IH (run_query c r).2).
Qed.

(** The queries that are sent are the first [n] of the list. *)
Lemma sent_take cs r :
  ∃ n, (n ≤ length cs)%nat ∧ sent cs (answers cs r) = take n cs ∧
       (cs ≠ [] → (1 ≤ n)%nat) ∧
       (first_failure (answers cs r) = None → n = length cs).
Proof.
  revert r. induction cs as [|c cs IH]; intros r.
  - exists 0. by repeat split.
  - rewrite answers_cons. cbn [sent first_failure].
    destruct (failure (run_query c r).1) as [e|].
    + exists 1. cbn [take length]. rewrite take_0.
      split; [lia|]. split; [done|]. split; [done|]. discriminate.
    + destruct (IH (run_query c r).2) as (n & Hn & -> & _ & Hall).
      exists (S n). cbn [take length].
      split; [lia|]. split; [done|]. split; [lia|].
      intros Hf. by rewrite Hall.
Qed.

Lemma first_failure_all r :
  first_failure (answers all_colls r) = None ↔ ∀ c, failure (answer c r) = None.
Proof.
  rewrite answers_all. cbn [first_failure]. split.
  - intros H c.
    destruct (failure (answer Categories r)) eqn:H0; [done|].
    destruct (failure (answer Panchayaths r)) eqn:H1; [done|].
    destruct (failure (answer Announcements r)) eqn:H2; [done|].
    destruct (failure (answer PhotoGallery r)) eqn:H3; [done|].
    destruct (failure (answer Registrations r)) eqn:H4; [done|].
    destruct (failure (answer Notifications r)) eqn:H5; [done|].
    by destruct c.
  - intros H.
    by rewrite (H Categories), (H Panchayaths), (H Announcements), (H PhotoGallery),
      (H Registrations), (H Notifications).
Qed.

Lemma toasts_refreshed w :
  toasts (new_events w (refreshed w)) =
  match first_failure (answers all_colls (remote w)) with
  | Some _ => [load_failed]
  | None => []
  end.
Proof.
  rewrite new_events_refreshed.
  change (ESetLoading true :: ?l) with ([ESetLoading true] ++ l).
  rewrite !toasts_app, (proj1 (events_reports _ _)). cbn. by rewrite app_nil_r.
Qed.

(** The queries of a refresh whose first failure is at [k]: those up to
    and including the one of [k]. *)
Lemma sent_first_failure r k :
  (∀ c, coll_index c < coll_index k → failure (answer c r) = None) →
  is_Some (failure (answer k r)) →
  sent all_colls (answers all_colls r) = take (S (coll_index k)) all_colls.
Proof.
  intros H [e He]. rewrite answers_all.
  pose proof (H Categories) as H0. pose proof (H Panchayaths) as H1.
  pose proof (H Announcements) as H2. pose proof (H PhotoGallery) as H3.
  pose proof (H Registrations) as H4.
  destruct k; cbn [coll_index] in *; cbn [all_colls sent];
    try rewrite H0 by lia; try rewrite H1 by lia; try rewrite H2 by lia;
    try rewrite H3 by lia; try rewrite H4 by lia; rewrite He; reflexivity.
Qed.

(** X1. Whatever the remote answers, the requests of one [fetchData] are
    the first [n] of its six queries, in order, for some [n] between one
    and six: it stops at the first failure (when the query of [k] is the
    first to fail, the queries up to and including that one are sent and
    no later one), it sends all six when none fails, and it never sends a
    write. *)
Theorem fetchData_requests_prefix w :
  let rqs := requests (new_events w (snd (fetchData w))) in
  ∃ n, (1 ≤ n)%nat ∧ (n ≤ 6)%nat ∧
       rqs = request_of <$> take n all_colls ∧
       Forall (λ rq, is_select rq = true) rqs ∧
       ((∀ c, failure (answer c (remote w)) = None) → n = 6) ∧
       (∀ k, (∀ c, coll_index c < coll_index k → failure (answer c (remote w)) = None) →
             is_Some (failure (answer k (remote w))) →
             n = S (coll_index k)).
Proof.
  cbn zeta. rewrite fetchData_refreshed. cbn [snd]. rewrite requests_refreshed.
  destruct (sent_take all_colls (remote w)) as (n & Hn & Hsent & H1 & Hall).
  rewrite Hsent.
  exists n. split; [by apply H1|]. split; [exact Hn|]. split; [done|]. split; [|split].
  - apply Forall_fmap, Forall_forall. intros c _. apply request_of_select.
  - intros H. apply Hall. by apply first_failure_all.
  - intros k Hbefore Hk.
    rewrite (sent_first_failure _ k Hbefore Hk) in Hsent.
    apply (f_equal length) in Hsent. rewrite !length_take in Hsent.
    cbn [all_colls length] in *. destruct k; cbn [coll_index] in *; lia.
Qed.

(** X2. One [fetchData] changes the loading flag exactly twice: its first
    effect sets it to true, its last effect sets it to false, and nothing
    in between touches it. *)
Theorem fetchData_loading_bracket w :
  let evs := new_events w (snd (fetchData w)) in
  loading_changes evs = [true; false] ∧
  head evs = Some (ESetLoading true) ∧
  last evs = Some (ESetLoading false).
Proof.
  cbn zeta. rewrite fetchData_refreshed. cbn [snd]. rewrite new_events_refreshed.
  split; [|split].
  - change (ESetLoading true :: ?l) with ([ESetLoading true] ++ l).
    rewrite !loading_changes_app, (proj2 (proj2 (events_reports _ _))). done.
  - done.
  - change (ESetLoading true :: ?l ++ ?l') with ((ESetLoading true :: l) ++ l').
    apply last_snoc.
Qed.

(** X3. [fetchData] reports a failure once and only when there is one: if
    a query fails, it logs that query's error once and shows the one
    destructive toast; if none fails it logs nothing and shows no toast. *)
Theorem fetchData_reports_once w :
  let evs := new_events w (snd (fetchData w)) in
  match first_failure (answers all_colls (remote w)) with
  | Some e =>
      console_errors evs = [("Error fetching data:", e)] ∧
      toasts evs = [destructive "Error" "Failed to load data. Please try again."]
  | None => console_errors evs = [] ∧ toasts evs = []
  end ∧
  (toasts evs = [] ↔ ∀ c, failure (answer c (remote w)) = None).
Proof.
  cbn zeta. rewrite fetchData_refreshed. cbn [snd].
  rewrite toasts_refreshed. rewrite <- first_failure_all.
  rewrite new_events_refreshed.
  change (ESetLoading true :: ?l) with ([ESetLoading true] ++ l).
  rewrite !console_errors_app, (proj1 (proj2 (events_reports _ _))).
  destruct (first_failure (answers all_colls (remote w))); cbn; split; done.
Qed.

Lemma call_returned m w : fst (call m w) = Normal (returned m w).
Proof.
  destruct m; cbn [call returned]; unfold returning.
  - by rewrite createRegistration_mutated.
  - by rewrite updateRegistrationStatus_mutated.
  - by rewrite deleteRegistration_mutated.
  - by rewrite updateCategoryImage_mutated.
  - by rewrite updateCategoryFees_mutated.
Qed.

Lemma failure_report_shape m e :
  ∃ msg t, failure_report m e = [EConsoleError msg e; EToast t] ∧
           title t = "Error" ∧ variant t = Some "destructive".
Proof. destruct m; by repeat eexists. Qed.

Lemma success_toast_plain m : variant (success_toast m) = None.
Proof. by destruct m. Qed.

Lemma toasts_mutated m w :
  toasts (new_events w (mutated m w)) =
  match write_failure m w with
  | Some e => toasts (failure_report m e)
  | None =>
      success_toast m ::
      match first_failure (answers all_colls (remote (written m w))) with
      | Some _ => [load_failed]
      | None => []
      end
  end.
Proof.
  rewrite new_events_mutated.
  destruct (write_failure m w) as [e|]; [done|].
  change (ERequest ?rq :: EToast ?t :: ?l) with ([ERequest rq; EToast t] ++ l).
  rewrite toasts_app. cbn [toasts omap app]. f_equal.
  apply (toasts_refreshed (emit _ (written m w))).
Qed.

(** X4. The toasts of a mutator. A failed write shows exactly one toast,
    destructive and titled "Error", and logs the write's error once. A
    successful write shows the mutator's own toast, which is not
    destructive, first; it is followed by the load-failure toast exactly
    when a query of the refresh fails. *)
Theorem mutator_toasts m w :
  let evs := new_events w (snd (call m w)) in
  match write_failure m w with
  | Some e =>
      (∃ t, toasts evs = [t] ∧ title t = "Error" ∧ variant t = Some "destructive") ∧
      (∃ msg, console_errors evs = [(msg, e)])
  | None =>
      variant (success_toast m) = None ∧
      toasts evs =
        success_toast m ::
        match first_failure (answers all_colls (remote (written m w))) with
        | Some _ => [destructive "Error" "Failed to load data. Please try again."]
        | None => []
        end
  end.
Proof.
  cbn zeta. rewrite call_mutated, toasts_mutated, new_events_mutated.
  destruct (write_failure m w) as [e|].
  - destruct (failure_report_shape m e) as (msg & t & -> & Ht & Hv).
    split; [by exists t|by exists msg].
  - split; [apply success_toast_plain|done].
Qed.

(** X5. A mutator decides what it returns on the write alone. When the
    write succeeds and the first query of the following refresh fails, the
    mutator still returns its success value (true, or the inserted row),
    while all six collections are what they were before the call: the
    change is not visible locally, the loading flag is false, and the
    success toast is followed by the load-failure toast. *)
Theorem mutator_success_stale m w :
  write_failure m w = None →
  is_Some (failure (answer Categories (remote (written m w)))) →
  let w' := snd (call m w) in
  fst (call m w) = Normal (returned m w) ∧
  (boolean m = true → returned m w = RetBool true) ∧
  (∀ c, get_coll c (store w') = get_coll c (store w)) ∧
  loading (store w') = false ∧
  toasts (new_events w w') =
    [success_toast m; destructive "Error" "Failed to load data. Please try again."].
Proof.
  intros Hok [e He]. cbn zeta.
  rewrite call_returned, call_mutated, toasts_mutated, Hok.
  unfold mutated. rewrite Hok, store_refreshed.
  cbn [emit remote store]. rewrite answers_all.
  cbn [first_failure all_colls assign]. rewrite He.
  split; [done|]. split.
  - destruct m; [discriminate|..]; intros _; cbn [returned];
      by rewrite Hok, bool_decide_eq_true_2.
  - split; [by intros []|done].
Qed.

(** X6. What a mutator costs. A failed write is the only request of the
    call. After a successful write the mutator sends the first [n] queries
    of the refresh, for some [n] between one and six, and all six when
    none of them fails: one write and six reads. *)
Theorem mutator_requests m w :
  let rqs := requests (new_events w (snd (call m w))) in
  (is_Some (write_failure m w) → rqs = [write_request m (clock w)]) ∧
  (write_failure m w = None →
     ∃ n, (1 ≤ n)%nat ∧ (n ≤ 6)%nat ∧
          rqs = write_request m (clock w) :: (request_of <$> take n all_colls) ∧
          ((∀ c, failure (answer c (remote (written m w))) = None) →
             n = 6 ∧ length rqs = 7)).
Proof.
  cbn zeta. rewrite call_mutated, requests_mutated. split.
  - by intros [e ->].
  - intros ->.
    destruct (sent_take all_colls (remote (written m w))) as (n & Hn & -> & H1 & Hall).
    exists n. split; [by apply H1|]. split; [exact Hn|]. split; [done|].
    intros H. apply first_failure_all in H. rewrite (Hall H). done.
Qed.

Lemma loading_mutated m w :
  loading (store (mutated m w)) =
  match write_failure m w with
  | None => false
  | Some _ => loading (store w)
  end.
Proof. unfold mutated. by destruct (write_failure m w). Qed.

Lemma loading_perform_all (cs : list Call) w :
  loading (store w) = false → loading (store (perform_all cs w)) = false.
Proof.
  revert w. induction cs as [|c cs IH]; intros w Hw; [done|].
  apply IH. destruct c as [|m|now]; cbn [perform].
  - by rewrite fetchData_refreshed.
  - rewrite call_mutated, loading_mutated. by destruct (write_failure m w).
  - done.
Qed.

(** X7. The loading flag at rest. It is true at the first render; once a
    first [fetchData] has returned it is false after every later call of
    the hook, whatever the calls are and whatever the remote answers. *)
Theorem loading_after_first_load (r : R) (now : string) (cs : list Call) :
  loading (store (rendered r now)) = true ∧
  loading (store (perform_all (Refresh :: cs) (rendered r now))) = false.
Proof.
  split; [done|].
  change (perform_all (Refresh :: cs) ?w) with (perform_all cs (perform Refresh w)).
  apply loading_perform_all. cbn [perform]. by rewrite fetchData_refreshed.
Qed.

End Reports.

(** * The writes of the mutators, and what they mean for the rows *)

Section Writes.
Context {R : Type} {client : Client R}.
Implicit Types (w : World R) (row patch : Obj) (rows : list Obj) (fs : list Filter).

Lemma matches_eq (col : string) (v : Val) row :
  matches [FEq col v] row = bool_decide (row !! col = Some v).
Proof. unfold matches. cbn. by rewrite andb_true_r. Qed.

Lemma update_rows_lookup patch fs rows (i : nat) row :
  rows !! i = Some row →
  update_rows patch fs rows !! i = Some (if matches fs row then patch ∪ row else row).
Proof. intros Hi. unfold update_rows. by rewrite list_lookup_fmap, Hi. Qed.

Lemma update_rows_length patch fs rows : length (update_rows patch fs rows) = length rows.
Proof. apply length_fmap. Qed.

(** A patch that does not touch the column of the filter can be applied
    twice with the effect of once. *)
Lemma update_rows_twice patch (col : string) (v : Val) rows :
  patch !! col = None →
  update_rows patch [FEq col v] (update_rows patch [FEq col v] rows) =
  update_rows patch [FEq col v] rows.
Proof.
  intros Hp. unfold update_rows. rewrite <- list_fmap_compose.
  apply list_fmap_ext. intros _ row _. unfold compose. rewrite (matches_eq col v row).
  destruct (bool_decide (row !! col = Some v)) eqn:Hm.
  - rewrite matches_eq, lookup_union_r by done. rewrite Hm.
    by rewrite (assoc_L (∪)), (idemp_L (∪)).
  - by rewrite matches_eq, Hm.
Qed.

Lemma elem_of_delete_rows fs rows row :
  row ∈ delete_rows fs rows ↔ row ∈ rows ∧ matches fs row = false.
Proof. unfold delete_rows. rewrite list_elem_of_filter. tauto. Qed.

(** X8. [deleteRegistration] sends one write, a delete on [registrations]
    filtered on [id] equal to the given id. Such a delete keeps exactly
    the rows whose [id] is different (or missing), in their order, and
    doing it a second time removes nothing more. *)
Theorem deleteRegistration_delete (id : string) w :
  let fs := [FEq "id" (VStr id)] in
  filter (λ rq, is_select rq = false)
         (requests (new_events w (snd (deleteRegistration id w)))) =
    [RDelete "registrations" fs] ∧
  ∀ rows,
    (∀ row, row ∈ delete_rows fs rows ↔ row ∈ rows ∧ row !! "id" ≠ Some (VStr id)) ∧
    delete_rows fs rows `sublist_of` rows ∧
    delete_rows fs (delete_rows fs rows) = delete_rows fs rows.
Proof.
  cbn zeta. rewrite deleteRegistration_mutated. cbn [snd]. rewrite writes_mutated.
  split; [done|]. intros rows. split; [|split].
  - intros row. rewrite elem_of_delete_rows, matches_eq, bool_decide_eq_false. done.
  - apply sublist_filter.
  - unfold delete_rows. rewrite list_filter_filter. apply list_filter_iff. tauto.
Qed.

(** X9. [updateCategoryImage] sends one write, an update on [categories]
    filtered on [name] (not on [id]) whose patch has the one property
    [image_url]. Under such an update every row of that name gets the new
    [image_url] and keeps all its other properties, every other row is
    left as it is, no row is added or removed, and the update can be
    repeated without further effect. *)
Theorem updateCategoryImage_update (categoryName imageUrl : string) w :
  let patch : Obj := {[ "image_url" := VStr imageUrl ]} in
  let fs := [FEq "name" (VStr categoryName)] in
  filter (λ rq, is_select rq = false)
         (requests (new_events w (snd (updateCategoryImage categoryName imageUrl w)))) =
    [RUpdate "categories" patch fs] ∧
  ∀ rows,
    length (update_rows patch fs rows) = length rows ∧
    update_rows patch fs (update_rows patch fs rows) = update_rows patch fs rows ∧
    ∀ (i : nat) row, rows !! i = Some row →
      ∃ row', update_rows patch fs rows !! i = Some row' ∧
        (row !! "name" = Some (VStr categoryName) →
           row' !! "image_url" = Some (VStr imageUrl) ∧
           ∀ key, key ≠ "image_url" → row' !! key = row !! key) ∧
        (row !! "name" ≠ Some (VStr categoryName) → row' = row).
Proof.
  cbn zeta. rewrite updateCategoryImage_mutated. cbn [snd]. rewrite writes_mutated.
  split; [done|]. intros rows. split; [apply update_rows_length|]. split.
  { by apply update_rows_twice. }
  intros i row Hi. eexists. split; [by apply update_rows_lookup|].
  rewrite matches_eq. split.
  - intros Hn. rewrite bool_decide_eq_true_2 by done. split.
    + by apply lookup_union_Some_l, lookup_singleton_eq.
    + intros key Hk. apply lookup_union_r. by apply lookup_singleton_ne.
  - intros Hn. by rewrite bool_decide_eq_false_2.
Qed.

(** X10. [updateCategoryFees] sends one write, an update on [categories]
    filtered on [name] whose patch has exactly [actual_fee], [offer_fee]
    and [has_offer]: the three change together. Under such an update every
    row of that name gets the three values and keeps its other properties,
    and every other row is left as it is. *)
Theorem updateCategoryFees_update (categoryName : string) (actualFee offerFee : Z)
    (hasOffer : bool) w :
  let patch : Obj :=
    {[ "actual_fee" := VNum actualFee; "offer_fee" := VNum offerFee;
       "has_offer" := VBool hasOffer ]} in
  let fs := [FEq "name" (VStr categoryName)] in
  filter (λ rq, is_select rq = false)
         (requests (new_events w
            (snd (updateCategoryFees categoryName actualFee offerFee hasOffer w)))) =
    [RUpdate "categories" patch fs] ∧
  (∀ key, is_Some (patch !! key) ↔ key ∈ ["actual_fee"; "offer_fee"; "has_offer"]) ∧
  ∀ rows (i : nat) row, rows !! i = Some row →
    ∃ row', update_rows patch fs rows !! i = Some row' ∧
      (row !! "name" = Some (VStr categoryName) →
         row' !! "actual_fee" = Some (VNum actualFee) ∧
         row' !! "offer_fee" = Some (VNum offerFee) ∧
         row' !! "has_offer" = Some (VBool hasOffer) ∧
         ∀ key, key ∉ ["actual_fee"; "offer_fee"; "has_offer"] → row' !! key = row !! key) ∧
      (row !! "name" ≠ Some (VStr categoryName) → row' = row).
Proof.
  cbn zeta. rewrite updateCategoryFees_mutated. cbn [snd]. rewrite writes_mutated.
  split; [done|]. split.
  { intros key. rewrite !elem_of_cons, elem_of_nil. split.
    - intros [v Hv].
      destruct (decide (key = "actual_fee")); [tauto|].
      destruct (decide (key = "offer_fee")); [tauto|].
      destruct (decide (key = "has_offer")); [tauto|].
      by simplify_map_eq.
    - intros [->|[->|[->|[]]]]; by simplify_map_eq. }
  intros rows i row Hi. eexists. split; [by apply update_rows_lookup|].
  rewrite matches_eq. split.
  - intros Hn. rewrite bool_decide_eq_true_2 by done.
    split; [|split; [|split]]; try (apply lookup_union_Some_l; by simplify_map_eq).
    intros key Hk. apply lookup_union_r.
    rewrite !elem_of_cons, elem_of_nil in Hk.
    rewrite !lookup_insert_ne by (intros <-; tauto).
    apply lookup_singleton_ne. intros <-. tauto.
  - intros Hn. by rewrite bool_decide_eq_false_2.
Qed.


End Writes.

(** * The hook in front of the reference remote *)

Section RoundTrips.
Import Ref.
Implicit Types (db : Db) (w : World Db) (c : Coll) (row : Obj).

Lemma serve_healthy {A} (run : Db → option A * Db) db :
  healthy db → serve run db = (Normal (MkReply (run db).1 None), (run db).2).
Proof.
  intros Hh. unfold serve, next_health. rewrite Hh. by destruct (run db).
Qed.

Lemma run_query_healthy c db :
  healthy db → run_query c db = (Normal (MkReply (Some (view c db)) None), db).
Proof.
  intros Hh. unfold run_query, view. destruct (query c) as [[t fs] o].
  cbn [exec_select client]. unfold select. by rewrite serve_healthy.
Qed.

Lemma answers_healthy (cs : list Coll) db :
  healthy db →
  answers cs db = (λ c, Normal (MkReply (Some (view c db)) None)) <$> cs.
Proof.
  intros Hh. induction cs as [|c cs IH]; [done|].
  cbn [answers]. rewrite run_query_healthy by done. by rewrite IH.
Qed.

(** A refresh in front of a healthy remote stores its views. *)
Lemma store_refreshed_healthy w c :
  healthy (remote w) →
  get_coll c (store (refreshed w)) = stored c (view c (remote w)).
Proof.
  intros Hh. rewrite store_refreshed, answers_healthy by done. by destruct c.
Qed.

Lemma elem_of_insert_row (o : Order) row x (l : list Obj) :
  row ∈ insert_row o x l ↔ row = x ∨ row ∈ l.
Proof.
  induction l as [|y l IH]; cbn [insert_row].
  - rewrite list_elem_of_singleton, elem_of_nil. tauto.
  - destruct (row_leb o x y); rewrite !elem_of_cons; [tauto|]. rewrite IH. tauto.
Qed.

Lemma elem_of_sort_rows (o : Order) row (l : list Obj) : row ∈ sort_rows o l ↔ row ∈ l.
Proof.
  induction l as [|y l IH]; [done|].
  cbn [sort_rows foldr]. rewrite elem_of_insert_row, elem_of_cons.
  fold (sort_rows o l). rewrite IH. tauto.
Qed.

Lemma elem_of_view_registrations row db :
  row ∈ view Registrations db ↔ row ∈ rows "registrations" db.
Proof.
  unfold view. cbn [query]. rewrite elem_of_sort_rows, list_elem_of_filter. cbn. tauto.
Qed.

Lemma rows_with_rows (t : string) (l : list Obj) db : rows t (with_rows t l db) = l.
Proof. unfold rows, with_rows. cbn. by rewrite lookup_insert_eq. Qed.

Lemma write_healthy (m : Mutation) w :
  healthy (remote w) →
  write_failure m w = None ∧ healthy (remote (written m w)).
Proof.
  intros Hh. unfold write_failure, written. cbn [remote].
  destruct m; cbn [write_request perform_request exec_insert_single exec_update
                   exec_delete client];
    unfold insert_single, update, delete; rewrite serve_healthy by done; done.
Qed.

Lemma registrations_mutated (m : Mutation) w :
  healthy (remote w) →
  registrations (store (mutated m w)) = view Registrations (remote (written m w)).
Proof.
  intros Hh. destruct (write_healthy m w Hh) as [Hok Hh'].
  unfold mutated. rewrite Hok.
  apply (store_refreshed_healthy (emit _ (written m w)) Registrations Hh').
Qed.

(** X12. In front of a healthy reference remote, [deleteRegistration]
    returns true and the registrations the hook then holds are exactly the
    registrations of the remote before the call without the rows of the
    given [id]. *)
Theorem deleteRegistration_round_trip (id : string) w :
  healthy (remote w) →
  let w' := snd (deleteRegistration id w) in
  fst (deleteRegistration id w) = Normal true ∧
  ∀ row, row ∈ registrations (store w') ↔
         row ∈ rows "registrations" (remote w) ∧ row !! "id" ≠ Some (VStr id).
Proof.
  intros Hh. cbn zeta. rewrite deleteRegistration_mutated. cbn [fst snd].
  destruct (write_healthy (DeleteRegistration id) w Hh) as [Hok _].
  split; [by rewrite Hok|].
  intros row. rewrite registrations_mutated, elem_of_view_registrations by done.
  unfold written. cbn [remote write_request perform_request exec_delete client].
  unfold delete. rewrite serve_healthy by done. cbn [fst snd].
  rewrite rows_with_rows, elem_of_delete_rows, matches_eq, bool_decide_eq_false. done.
Qed.

(** X13. In front of a healthy reference remote, [createRegistration]
    returns a row that has every property of the input, and after the call
    the hook holds that row among its registrations, together with every
    registration the remote had before. *)
Theorem createRegistration_round_trip (input : Obj) w :
  healthy (remote w) →
  input !! "id" = None → input !! "submitted_at" = None →
  let w' := snd (createRegistration input w) in
  ∃ row, fst (createRegistration input w) = Normal (Some row) ∧
         input ⊆ row ∧
         row ∈ registrations (store w') ∧
         ∀ old, old ∈ rows "registrations" (remote w) → old ∈ registrations (store w').
Proof.
  intros Hh Hid Hat. cbn zeta. rewrite createRegistration_mutated. cbn [fst snd].
  exists (assigned (remote w) input).
  assert (Hreg : ∀ row, row ∈ registrations (store (mutated (CreateRegistration input) w)) ↔
                        row ∈ rows "registrations" (remote w) ++ [assigned (remote w) input]).
  { intros row. rewrite registrations_mutated, elem_of_view_registrations by done.
    unfold written. cbn [remote write_request perform_request exec_insert_single client].
    unfold insert_single. rewrite serve_healthy by done. cbn [fst snd].
    unfold rows at 1. cbn [tables]. by rewrite lookup_insert_eq. }
  split; [|split; [|split]].
  - unfold created. cbn [exec_insert_single client]. unfold insert_single.
    by rewrite serve_healthy.
  - unfold assigned. by do 2 (apply insert_subseteq_r; [done|]).
  - apply Hreg, elem_of_app. right. apply list_elem_of_here.
  - intros old Hold. apply Hreg, elem_of_app. by left.
Qed.

(** X14. In front of a healthy reference remote, [updateRegistrationStatus]
    returns true, and afterwards every registration the hook holds under
    the given [id] has the given status and the time of the call as
    [approved_at], while the registrations with another [id] are those the
    remote had. *)
Theorem updateRegistrationStatus_round_trip (id : string) (status : Status)
    (uniqueId : option string) w :
  healthy (remote w) →
  let w' := snd (updateRegistrationStatus id status uniqueId w) in
  fst (updateRegistrationStatus id status uniqueId w) = Normal true ∧
  (∀ row, row ∈ registrations (store w') → row !! "id" = Some (VStr id) →
          row !! "status" = Some (VStr (status_str status)) ∧
          row !! "approved_at" = Some (VStr (clock w))) ∧
  (∀ row, row !! "id" ≠ Some (VStr id) →
          (row ∈ registrations (store w') ↔ row ∈ rows "registrations" (remote w))).
Proof.
  intros Hh. cbn zeta. rewrite updateRegistrationStatus_mutated. cbn [fst snd].
  destruct (write_healthy (UpdateRegistrationStatus id status uniqueId) w Hh) as [Hok _].
  split; [by rewrite Hok|].
  assert (Hreg : ∀ row,
            row ∈ registrations (store (mutated (UpdateRegistrationStatus id status uniqueId) w)) ↔
            row ∈ update_rows (updateData status (clock w) uniqueId) [FEq "id" (VStr id)]
                    (rows "registrations" (remote w))).
  { intros row. rewrite registrations_mutated, elem_of_view_registrations by done.
    unfold written. cbn [remote write_request perform_request exec_update client].
    unfold update. rewrite serve_healthy by done. cbn [fst snd].
    by rewrite rows_with_rows. }
  assert (Hid : updateData status (clock w) uniqueId !! "id" = None).
  { unfold updateData.
    destruct uniqueId as [u|]; [destruct (truthy (Some u))|]; by simplify_map_eq. }
  split.
  - intros row Hin Hrow. apply Hreg in Hin. unfold update_rows in Hin.
    apply list_elem_of_fmap in Hin as (row0 & -> & _). rewrite matches_eq in *.
    destruct (bool_decide (row0 !! "id" = Some (VStr id))) eqn:Hm.
    + split; apply lookup_union_Some_l; unfold updateData;
        (destruct uniqueId as [u|]; [destruct (truthy (Some u))|]); by simplify_map_eq.
    + by apply bool_decide_eq_false in Hm.
  - intros row Hrow. rewrite Hreg. unfold update_rows. rewrite list_elem_of_fmap. split.
    + intros (row0 & -> & Hin). rewrite matches_eq in *.
      destruct (bool_decide (row0 !! "id" = Some (VStr id))) eqn:Hm; [|done].
      apply bool_decide_eq_true in Hm. rewrite lookup_union_r in Hrow by done. done.
    + intros Hin. exists row. split; [|done].
      by rewrite matches_eq, bool_decide_eq_false_2.
Qed.

Lemma remote_after_healthy (cs : list Coll) db : healthy db → remote_after cs db = db.
Proof.
  intros Hh. induction cs as [|c cs IH]; [done|].
  cbn [remote_after]. by rewrite run_query_healthy.
Qed.

Lemma store_ext (s1 s2 : Store) :
  (∀ c, get_coll c s1 = get_coll c s2) → loading s1 = loading s2 → s1 = s2.
Proof.
  intros Hc Hl. destruct s1, s2. cbn in Hl.
  pose proof (Hc Categories). pose proof (Hc Panchayaths). pose proof (Hc Announcements).
  pose proof (Hc PhotoGallery). pose proof (Hc Registrations). pose proof (Hc Notifications).
  cbn in *. congruence.
Qed.

(** X19. In front of a healthy reference remote a refresh only reads: it
    leaves the remote as it is, and a second refresh right after the first
    shows the same store. *)
Theorem fetchData_idempotent w :
  healthy (remote w) →
  let w' := snd (fetchData w) in
  remote w' = remote w ∧
  store (snd (fetchData w')) = store w'.
Proof.
  intros Hh. cbn zeta. rewrite !fetchData_refreshed. cbn [snd].
  assert (Hr : remote (refreshed w) = remote w).
  { unfold refreshed. cbn [remote]. by apply remote_after_healthy. }
  split; [exact Hr|].
  apply store_ext; [|done].
  intros c. rewrite !store_refreshed_healthy by (by rewrite ?Hr). by rewrite Hr.
Qed.

End RoundTrips.

(** * More about the provider *)

Module ProviderFacts.
Import Auth.
Implicit Types (w : Auth.World) (st : Step).

Lemma run_app sts1 sts2 w : run (sts1 ++ sts2) w = run sts2 (run sts1 w).
Proof. apply foldl_app. Qed.

Lemma run_step st sts w : run (st :: sts) w = run sts (step st w).
Proof. reflexivity. Qed.

(** A step of the remote leaves the registry and the life cycle alone. *)
Lemma remote_step_frame st w :
  remote_step st = true →
  subscribers (step st w) = subscribers w ∧ held (step st w) = held w ∧
  phase (step st w) = phase w ∧ next_handle (step st w) = next_handle w.
Proof.
  intros Hst. destruct st as [| |data|s]; try discriminate; cbn [step].
  - destruct (pending w); [done|].
    unfold then_callback, setUser, record. cbn. by destruct (phase w).
  - destruct (held w) as [h|] eqn:Hh; [|by rewrite Hh].
    destruct (bool_decide (h ∈ subscribers w)); [|by rewrite Hh].
    unfold listener_callback, setUser, record. cbn. by destruct (phase w).
Qed.

Lemma remote_run_frame sts w :
  Forall (λ st, remote_step st = true) sts →
  subscribers (run sts w) = subscribers w ∧ held (run sts w) = held w ∧
  phase (run sts w) = phase w ∧ next_handle (run sts w) = next_handle w.
Proof.
  intros Hsts. revert w. induction Hsts as [|st sts Hst _ IH]; intros w; [done|].
  rewrite run_step. destruct (IH (step st w)) as (-> & -> & -> & ->).
  by apply remote_step_frame.
Qed.

Lemma filter_all {A} (P : A → Prop) `{∀ x, Decision (P x)} (l : list A) :
  Forall P l → filter P l = l.
Proof.
  induction 1 as [|x l Hx _ IH]; [done|]. by rewrite filter_cons_True, IH.
Qed.

(** X15. Acquire and release. A provider mounted while every registered
    listener has a handle below the next one, and torn down later, leaves
    the client's list of listeners exactly as it found it, whatever the
    remote does in between and afterwards. *)
Theorem mount_unmount_restores_listeners w (during after : list Step) :
  phase w = Rendered →
  (∀ h, h ∈ subscribers w → h < next_handle w) →
  Forall (λ st, remote_step st = true) during →
  Forall (λ st, remote_step st = true) after →
  subscribers (run (Mount :: during ++ Unmount :: after) w) = subscribers w ∧
  phase (run (Mount :: during ++ Unmount :: after) w) = Unmounted.
Proof.
  intros Hp Hfresh Hd Ha.
  rewrite run_step, run_app, run_step.
  assert (Hm : subscribers (step Mount w) = next_handle w :: subscribers w ∧
               held (step Mount w) = Some (next_handle w) ∧
               phase (step Mount w) = Mounted).
  { cbn [step]. rewrite Hp. done. }
  destruct Hm as (Hs' & Hh' & Hph').
  set (w1 := step Mount w) in *.
  destruct (remote_run_frame during w1 Hd) as (Hs & Hh & Hph & _).
  set (w2 := run during w1) in *.
  destruct (remote_run_frame after (step Unmount w2) Ha) as (-> & _ & -> & _).
  cbn [step]. rewrite Hph, Hph'. unfold cleanup. rewrite Hh, Hh'.
  cbn. split; [|done]. rewrite Hs, Hs'.
  rewrite filter_cons_False by (intros H; by apply H).
  apply filter_all, Forall_forall. intros h Hin Heq. subst h.
  specialize (Hfresh _ Hin). lia.
Qed.

Lemma last_callback_snoc_then evs v : last_callback (evs ++ [ThenCallback v]) = Some v.
Proof. unfold last_callback. rewrite omap_app. cbn. apply last_snoc. Qed.

Lemma last_callback_snoc_listener evs v :
  last_callback (evs ++ [ListenerCallback v]) = Some v.
Proof. unfold last_callback. rewrite omap_app. cbn. apply last_snoc. Qed.

(** While mounted, a step of the remote either does nothing or appends
    one callback whose value becomes the user value. *)
Lemma mounted_remote_step st w :
  phase w = Mounted → remote_step st = true →
  step st w = w ∨
  ∃ v, user (step st w) = v ∧
       (log (step st w) = log w ++ [ThenCallback v] ∨
        log (step st w) = log w ++ [ListenerCallback v]).
Proof.
  intros Hp Hst. destruct st as [| |data|s]; try discriminate; cbn [step].
  - destruct (pending w); [by left|]. right. exists (user_of_data data).
    unfold then_callback, setUser, record. cbn. rewrite Hp. cbn. by split; [|left].
  - destruct (held w) as [h|]; [|by left].
    destruct (bool_decide (h ∈ subscribers w)); [|by left].
    right. exists (user_of_session s).
    unfold listener_callback, setUser, record. cbn. rewrite Hp. cbn. by split; [|right].
Qed.

Lemma mounted_run_last sts w (base : list Event) (u0 : Value) (evs : list Event) :
  phase w = Mounted →
  Forall (λ st, remote_step st = true) sts →
  log w = base ++ evs → user w = default u0 (last_callback evs) →
  ∃ evs', log (run sts w) = base ++ evs' ∧
          user (run sts w) = default u0 (last_callback evs').
Proof.
  intros Hp Hsts. revert w evs Hp.
  induction Hsts as [|st sts Hst _ IH]; intros w evs Hp Hlog Hu; [by exists evs|].
  rewrite run_step.
  assert (Hp' : phase (step st w) = Mounted).
  { destruct (remote_step_frame st w Hst) as (_ & _ & -> & _). done. }
  destruct (mounted_remote_step st w Hp Hst) as [->|(v & Hv & [Hl|Hl])].
  - by apply (IH w evs).
  - apply (IH _ (evs ++ [ThenCallback v]) Hp').
    + by rewrite Hl, Hlog, <- app_assoc.
    + by rewrite last_callback_snoc_then.
  - apply (IH _ (evs ++ [ListenerCallback v]) Hp').
    + by rewrite Hl, Hlog, <- app_assoc.
    + by rewrite last_callback_snoc_listener.
Qed.

(** X16. The last callback wins. From the mount on and until teardown, the
    user value is the value of the most recent callback, be it the
    listener's or the one of the session query, and it is the value before
    the mount as long as no callback has run. In particular a session
    query that resolves after a push replaces what the push has set. *)
Theorem user_is_last_callback w (sts : list Step) :
  phase w = Rendered →
  Forall (λ st, remote_step st = true) sts →
  let w' := run sts (step Mount w) in
  user w' = default (user w) (last_callback (new_log w w')).
Proof.
  intros Hp Hsts. cbn zeta.
  assert (Hm : phase (step Mount w) = Mounted ∧ user (step Mount w) = user w ∧
               log (step Mount w) = log w ++ [GetSession; Subscribed (next_handle w)]).
  { cbn [step]. rewrite Hp. unfold effect. cbn. by rewrite <- app_assoc. }
  destruct Hm as (Hph & Hu & Hl).
  destruct (mounted_run_last sts (step Mount w) (log w) (user w)
              [GetSession; Subscribed (next_handle w)] Hph Hsts Hl Hu)
    as (evs' & Hlog & Huser).
  unfold new_log. rewrite Hlog, drop_app_length. exact Huser.
Qed.

Lemma then_calls_snoc evs ev :
  then_calls (evs ++ [ev]) =
  then_calls evs + match ev with ThenCallback _ => 1 | _ => 0 end.
Proof. unfold then_calls. rewrite omap_app, length_app. by destruct ev. Qed.

Lemma session_queries_snoc evs ev :
  session_queries (evs ++ [ev]) =
  session_queries evs + match ev with GetSession => 1 | _ => 0 end.
Proof. unfold session_queries. rewrite omap_app, length_app. by destruct ev. Qed.

Lemma accounted_step st w : accounted w → accounted (step st w).
Proof.
  unfold accounted. intros [Hc Hp]. destruct st as [| |data|s]; cbn [step].
  - destruct (phase w) eqn:Hph; [|by rewrite Hph|by rewrite Hph].
    destruct Hp as [Hl Hh]. unfold effect, getSession, onAuthStateChange, record.
    cbn [log phase pending held]. rewrite Hl in *. cbn in *. lia.
  - destruct (phase w) eqn:Hph; [by rewrite Hph| |by rewrite Hph].
    unfold cleanup. destruct (held w) as [h|]; [|done].
    unfold unsubscribe, record. cbn [log phase pending held].
    rewrite then_calls_snoc, session_queries_snoc. lia.
  - destruct (pending w) as [|n] eqn:Hn; [by rewrite Hn|].
    unfold then_callback, setUser, record. cbn [log phase pending held].
    destruct (phase w) eqn:Hph; cbn [log phase pending held]; rewrite ?Hph;
      rewrite then_calls_snoc, session_queries_snoc.
    + destruct Hp as [Hl _]. rewrite Hl in Hc. cbn in Hc. lia.
    + lia.
    + lia.
  - destruct (held w) as [h|] eqn:Hh; [|by rewrite Hh].
    destruct (bool_decide (h ∈ subscribers w)); [|by rewrite Hh].
    unfold listener_callback, setUser, record. cbn [log phase pending held].
    destruct (phase w) eqn:Hph; cbn [log phase pending held]; rewrite ?Hph;
      rewrite then_calls_snoc, session_queries_snoc.
    + by destruct Hp.
    + lia.
    + lia.
Qed.

Lemma accounted_run sts w : accounted w → accounted (run sts w).
Proof.
  revert w. induction sts as [|st sts IH]; intros w Hw; [done|].
  rewrite run_step. by apply IH, accounted_step.
Qed.

(** X17. One session query per provider, answered at most once. Whatever
    the sequence of mounts, teardowns, pushes and resolutions from the
    first render, the provider has sent at most one get-current-session
    query, none before its effect has run, and the callbacks of that query
    that have run plus the resolutions still awaited are exactly the
    queries sent: the callback runs at most once. *)
Theorem session_query_once (sts : list Step) :
  let w := run sts initial in
  then_calls (log w) + pending w = session_queries (log w) ∧
  (session_queries (log w) ≤ 1)%nat ∧
  (then_calls (log w) ≤ 1)%nat ∧
  (phase w = Rendered → log w = []).
Proof.
  cbn zeta.
  assert (Hi : accounted initial) by done.
  destruct (accounted_run sts initial Hi) as [Hc Hp].
  destruct (phase (run sts initial)) eqn:Hph.
  - destruct Hp as [Hl _]. rewrite Hl in *. cbn in *. repeat split; lia.
  - repeat split; try lia. discriminate.
  - repeat split; try lia. discriminate.
Qed.

Lemma useAuth_Element above : useAuth (Element :: above) = useAuth above.
Proof. reflexivity. Qed.

(** X18. Under providers that are [AuthProvider]s, [useAuth] returns null
    exactly when there is no provider above the caller: "no provider" and
    "a provider, nobody signed in" are told apart by the result. *)
Theorem useAuth_null_iff (above : list Node) :
  Forall (λ n, n = Element ∨ ∃ w, n = AuthProvider w) above →
  (useAuth above = Null ↔ Forall (λ n, n = Element) above).
Proof.
  induction 1 as [|n above [->|[w ->]] _ IH].
  - split; [constructor|done].
  - rewrite useAuth_Element, IH. split.
    + by constructor.
    + by inversion 1.
  - split; [discriminate|]. inversion 1. discriminate.
Qed.

End ProviderFacts.

(** * The further properties on concrete data *)

Section MoreExamples.
Import Ref.

Local Ltac compute_eq := compute_done.

Lemma fetchData_requests_prefix_witness :
  let w := fresh (sample []) in
  let w2 := fresh (sample [Up; Up; Refuses down]) in
  (∀ c, failure (answer c (remote w)) = None) ∧
  length (requests (new_events w (snd (fetchData w)))) = 6 ∧
  is_Some (failure (answer Announcements (remote w2))) ∧
  requests (new_events w2 (snd (fetchData w2))) =
    [RSelect "categories" [] (MkOrder "name" true);
     RSelect "panchayaths" [] (MkOrder "malayalam_name" true);
     RSelect "announcements" [FEq "is_active" (VBool true)] (MkOrder "created_at" false)].
Proof.
  cbn zeta. split; [exact sample_succeeds|]. split; [|split].
  - destruct (fetchData_requests_prefix (fresh (sample [])))
      as (n & _ & _ & -> & _ & Hall & _).
    by rewrite (Hall sample_succeeds).
  - compute_eq.
  - destruct (fetchData_requests_prefix (fresh (sample [Up; Up; Refuses down])))
      as (n & _ & _ & -> & _ & _ & Hstop).
    rewrite (Hstop Announcements); [reflexivity| |compute_eq].
    intros c Hc. destruct c; cbn in Hc; try lia; compute_eq.
Defined.

Lemma fetchData_reports_once_witness :
  let w := fresh (sample [Up; Up; Refuses down]) in
  let evs := new_events w (snd (fetchData w)) in
  first_failure (answers all_colls (remote w)) = Some down ∧
  console_errors evs = [("Error fetching data:", down)] ∧
  toasts evs = [load_failed] ∧
  ¬ (∀ c, failure (answer c (remote w)) = None).
Proof.
  cbn zeta.
  assert (Hf : first_failure (answers all_colls
                 (remote (fresh (sample [Up; Up; Refuses down])))) = Some down)
    by compute_eq.
  destruct (fetchData_reports_once (fresh (sample [Up; Up; Refuses down]))) as [Hm Hiff].
  rewrite Hf in Hm. destruct Hm as [Hc Ht].
  split; [exact Hf|]. split; [exact Hc|]. split; [exact Ht|].
  intros Hall. apply Hiff in Hall. rewrite Ht in Hall. discriminate Hall.
Defined.

Lemma mutator_success_stale_witness :
  let w := fresh (sample [Up; Refuses down]) in
  let m := DeleteRegistration "r0" in
  let w' := snd (call m w) in
  write_failure m w = None ∧
  is_Some (failure (answer Categories (remote (written m w)))) ∧
  fst (call m w) = Normal (RetBool true) ∧
  registrations (store w') = [] ∧
  length (toasts (new_events w w')) = 2.
Proof.
  cbn zeta.
  assert (Hok : write_failure (DeleteRegistration "r0")
                  (fresh (sample [Up; Refuses down])) = None) by compute_eq.
  assert (Hq : is_Some (failure (answer Categories
                 (remote (written (DeleteRegistration "r0")
                            (fresh (sample [Up; Refuses down]))))))) by compute_eq.
  destruct (mutator_success_stale (DeleteRegistration "r0")
              (fresh (sample [Up; Refuses down])) Hok Hq) as (Hr & Hb & Hc & _ & Ht).
  split; [exact Hok|]. split; [exact Hq|]. split; [|split].
  - rewrite Hr. by rewrite (Hb eq_refl).
  - exact (Hc Registrations).
  - by rewrite Ht.
Defined.

Lemma mutator_requests_witness :
  let w := fresh (sample []) in
  let m := UpdateCategoryImage "farmelife" "https://img/1.png" in
  write_failure m w = None ∧
  length (requests (new_events w (snd (call m w)))) = 7.
Proof.
  cbn zeta.
  assert (Hok : write_failure (UpdateCategoryImage "farmelife" "https://img/1.png")
                  (fresh (sample [])) = None) by compute_eq.
  assert (Hall : ∀ c, failure (answer c (remote (written
                   (UpdateCategoryImage "farmelife" "https://img/1.png")
                   (fresh (sample []))))) = None)
    by (intros []; compute_eq).
  destruct (mutator_requests (UpdateCategoryImage "farmelife" "https://img/1.png")
              (fresh (sample []))) as [_ Hsucc].
  destruct (Hsucc Hok) as (n & _ & _ & _ & H7).
  split; [exact Hok|]. exact (proj2 (H7 Hall)).
Defined.

Lemma deleteRegistration_delete_witness :
  let rows := rows "registrations" (sample []) in
  registration "r1" "Binu" "pending" ∈ delete_rows [FEq "id" (VStr "r0")] rows ∧
  registration "r0" "Asha" "pending" ∉ delete_rows [FEq "id" (VStr "r0")] rows.
Proof.
  cbn zeta.
  destruct (deleteRegistration_delete "r0" (fresh (sample []))) as [_ Hrows].
  destruct (Hrows (rows "registrations" (sample []))) as (Hin & _ & _).
  split.
  - apply Hin. split; compute_eq.
  - intros H. apply Hin in H as [_ H]. apply H. compute_eq.
Defined.

Lemma updateCategoryImage_update_witness :
  let rows := rows "categories" (sample []) in
  let patch : Obj := {[ "image_url" := VStr "https://img/1.png" ]} in
  ∃ row', update_rows patch [FEq "name" (VStr "farmelife")] rows !! 1 = Some row' ∧
          row' !! "image_url" = Some (VStr "https://img/1.png") ∧
          row' !! "actual_fee" = Some (VNum 100).
Proof.
  cbn zeta.
  destruct (updateCategoryImage_update "farmelife" "https://img/1.png" (fresh (sample [])))
    as [_ Hrows].
  destruct (Hrows (rows "categories" (sample []))) as (_ & _ & Hrow).
  destruct (Hrow 1 (category "farmelife" 100) ltac:(compute_eq)) as (row' & Hl & Hmatch & _).
  destruct (Hmatch ltac:(compute_eq)) as [Himg Hkeep].
  exists row'. split; [exact Hl|]. split; [exact Himg|].
  rewrite (Hkeep "actual_fee") by discriminate. compute_eq.
Defined.

Lemma updateCategoryFees_update_witness :
  let rows := rows "categories" (sample []) in
  let patch : Obj :=
    {[ "actual_fee" := VNum 100; "offer_fee" := VNum 80; "has_offer" := VBool true ]} in
  ∃ row', update_rows patch [FEq "name" (VStr "farmelife")] rows !! 1 = Some row' ∧
          row' !! "offer_fee" = Some (VNum 80) ∧
          row' !! "has_offer" = Some (VBool true) ∧
          row' !! "label" = Some (VStr "farmelife").
Proof.
  cbn zeta.
  destruct (updateCategoryFees_update "farmelife" 100 80 true (fresh (sample [])))
    as (_ & _ & Hrow).
  destruct (Hrow (rows "categories" (sample [])) 1 (category "farmelife" 100)
              ltac:(compute_eq)) as (row' & Hl & Hmatch & _).
  destruct (Hmatch ltac:(compute_eq)) as (_ & Ho & Hh & Hkeep).
  exists row'. split; [exact Hl|]. split; [exact Ho|]. split; [exact Hh|].
  rewrite (Hkeep "label") by compute_eq. compute_eq.
Defined.


Lemma deleteRegistration_round_trip_witness :
  let w := fresh (sample []) in
  healthy (remote w) ∧
  registration "r1" "Binu" "pending" ∈ registrations (store (snd (deleteRegistration "r0" w))) ∧
  registration "r0" "Asha" "pending" ∉ registrations (store (snd (deleteRegistration "r0" w))).
Proof.
  cbn zeta.
  destruct (deleteRegistration_round_trip "r0" (fresh (sample [])) eq_refl) as [_ Hin].
  split; [reflexivity|]. split.
  - apply Hin. split; compute_eq.
  - intros H. apply Hin in H as [_ H]. apply H. compute_eq.
Defined.

Lemma createRegistration_round_trip_witness :
  let w := fresh (sample []) in
  healthy (remote w) ∧
  ∃ row, fst (createRegistration (applicant "Chinnu") w) = Normal (Some row) ∧
         row !! "full_name" = Some (VStr "Chinnu") ∧
         row ∈ registrations (store (snd (createRegistration (applicant "Chinnu") w))).
Proof.
  cbn zeta.
  destruct (createRegistration_round_trip (applicant "Chinnu") (fresh (sample []))
              eq_refl ltac:(compute_eq) ltac:(compute_eq)) as (row & Hr & Hsub & Hin & _).
  split; [reflexivity|]. exists row. split; [exact Hr|]. split; [|exact Hin].
  eapply lookup_weaken; [|exact Hsub]. compute_eq.
Defined.

Lemma updateRegistrationStatus_round_trip_witness :
  let w := fresh (sample []) in
  let w' := snd (updateRegistrationStatus "r0" approved (Some "U123") w) in
  healthy (remote w) ∧
  registration "r1" "Binu" "pending" ∈ registrations (store w') ∧
  registration "r0" "Asha" "pending" ∉ registrations (store w').
Proof.
  cbn zeta.
  destruct (updateRegistrationStatus_round_trip "r0" approved (Some "U123")
              (fresh (sample [])) eq_refl) as (_ & Hset & Hother).
  split; [reflexivity|]. split.
  - apply Hother; compute_eq.
  - intros H. destruct (Hset _ H ltac:(compute_eq)) as [Hs _]. revert Hs. compute_eq.
Defined.

Lemma fetchData_idempotent_witness :
  let w := fresh (sample []) in
  healthy (remote w) ∧
  store (snd (fetchData (snd (fetchData w)))) = store (snd (fetchData w)).
Proof.
  cbn zeta. split; [reflexivity|].
  exact (proj2 (fetchData_idempotent (fresh (sample [])) eq_refl)).
Defined.

End MoreExamples.

Module ProviderExamples.
Import Auth ProviderFacts.

Lemma mount_unmount_restores_listeners_witness :
  let w := MkWorld Null Rendered 0 None [4; 1] 5 [] in
  phase w = Rendered ∧
  subscribers (run [Mount; Push (Some alice); Unmount; Push None] w) = [4; 1].
Proof.
  cbn zeta. split; [reflexivity|].
  apply (mount_unmount_restores_listeners (MkWorld Null Rendered 0 None [4; 1] 5 [])
           [Push (Some alice)] [Push None]).
  - reflexivity.
  - intros h Hh. cbn in *. rewrite !elem_of_cons, elem_of_nil in Hh. lia.
  - repeat constructor.
  - repeat constructor.
Defined.

(** The session query resolves after a push: what the push had set is
    replaced by the older answer. *)
Lemma user_is_last_callback_witness :
  let sts := [Push (Some alice); Resolve (Some (MkData None))] in
  phase initial = Rendered ∧
  last_callback (new_log initial (run sts (step Mount initial))) = Some Null ∧
  user (run sts (step Mount initial)) = Null.
Proof.
  cbn zeta. split; [reflexivity|]. split; [reflexivity|].
  rewrite (user_is_last_callback initial [Push (Some alice); Resolve (Some (MkData None))]
             eq_refl ltac:(repeat constructor)).
  reflexivity.
Defined.

Lemma session_query_once_witness :
  let sts := [Push None; Mount; Resolve None; Resolve None; Unmount; Mount; Resolve None] in
  then_calls (log (run sts initial)) = 1 ∧
  phase (run [Push None] initial) = Rendered ∧
  log (run [Push None] initial) = [].
Proof.
  cbn zeta. split; [reflexivity|]. split; [reflexivity|].
  exact (proj2 (proj2 (proj2 (session_query_once [Push None]))) eq_refl).
Defined.

Lemma useAuth_null_iff_witness :
  useAuth [Element; Element] = Null ∧
  useAuth [Element; AuthProvider initial] ≠ Null.
Proof.
  split.
  - apply (useAuth_null_iff [Element; Element]); repeat constructor.
  - intros H. apply (useAuth_null_iff [Element; AuthProvider initial]) in H.
    + inversion H as [|? ? _ H']. inversion H' as [|? ? Hd _]. discriminate Hd.
    + constructor; [by left|]. constructor; [right; by exists initial|constructor].
Defined.

End ProviderExamples.
